(** * Chagai.pro gallery: pagination, reorder and per-record mutations

    A shallow embedding of the client logic of the photography portfolio:
    - [src/lib/firebase.ts]: [uploadImage], [getPaginatedImages],
      [updateImageMetadata], [deleteImages], [updateSiteSettings],
      [checkAdminStatus];
    - the [Gallery] component: its React state and the handlers
      [loadInitialImages], [handleLoadMore], [handleDragEnd], [handleUpdate],
      [handleSetAsBackground], [handleDelete], [handleBulkDelete],
      [toggleImageSelection], and the controls its render offers.

    The backend (Firestore, Storage, Auth) is an external collaborator.  It is
    represented by a [World]: the [images] collection, the blob store, the
    site settings, the users collection, a fault oracle that decides which
    requests fail, and the log of the requests and of the user-visible effects
    (console, alert, page reload). *)

From Stdlib Require Import ZArith Lia Ascii.
From stdpp Require Import base option list sorting gmap strings pretty.

Open Scope Z_scope.

(** ** Data model *)

(** Text whose characters the code looks at (the labels field of the edit
    form, a label, a category) is a JavaScript string: a sequence of UTF-16
    code units, each given by its number.  Ids, urls, file names, timestamps,
    descriptions and messages are only stored, compared and concatenated;
    they are [string]s, the bytes of their UTF-8 encoding, which is also the
    order in which the gateway sorts strings. *)
Abbreviation jsstring := (list N).

(** The JavaScript string of an ASCII literal. *)
Definition js (s : string) : jsstring := N_of_ascii <$> String.list_ascii_of_string s.

(** What an [images/{id}] document holds.  Documents are written by
    [uploadImage] (an [Omit<ImageMetadata, 'id'>]) and patched by [updateDoc]
    with [position], [description] and [labels]; legacy documents may lack
    [position], hence the option. *)
Record DocumentData : Type := mkData {
  d_url : string;
  d_fileName : string;
  d_description : string;
  d_labels : list jsstring;
  d_createdAt : string;
  d_position : option Z
}.

(** [QueryDocumentSnapshot]: a document with its id; also the page cursor. *)
Record QueryDocumentSnapshot : Type := mkSnap {
  snap_id : string;
  snap_data : DocumentData
}.

(** [interface ImageMetadata].  [position] is a number in the TypeScript
    type, but the cast [as ImageMetadata] adds no field: a record read from a
    document without [position] has none at run time. *)
Module ImageMetadata.
Record t : Type := mk {
  id : string;
  url : string;
  fileName : string;
  description : string;
  labels : list jsstring;
  createdAt : string;
  position : option Z
}.

Definition with_position (p : option Z) (i : t) : t :=
  mk (id i) (url i) (fileName i) (description i) (labels i) (createdAt i) p.

Definition with_metadata (d : string) (ls : list jsstring) (i : t) : t :=
  mk (id i) (url i) (fileName i) d ls (createdAt i) (position i).
End ImageMetadata.
Abbreviation ImageMetadata := ImageMetadata.t.

#[global] Instance DocumentData_eq_dec : EqDecision DocumentData.
Proof. solve_decision. Defined.
#[global] Instance QueryDocumentSnapshot_eq_dec : EqDecision QueryDocumentSnapshot.
Proof. solve_decision. Defined.
#[global] Instance ImageMetadata_eq_dec : EqDecision ImageMetadata.
Proof. solve_decision. Defined.

(** [{ id: doc.id, ...doc.data() }] *)
Definition image_of_snapshot (d : QueryDocumentSnapshot) : ImageMetadata :=
  let x := snap_data d in
  ImageMetadata.mk (snap_id d) (d_url x) (d_fileName x) (d_description x)
    (d_labels x) (d_createdAt x) (d_position x).

(** [interface SiteSettings] as stored in [settings/site] (every field may be
    absent after a merge write). *)
Record SiteSettings : Type := mkSettings {
  loginBackgroundUrl : option string;
  aboutImage : option string;
  aboutText : option string;
  updatedAt : option string
}.

(** ** Queries *)

Inductive FieldPath := fld_labels | fld_createdAt | fld_position.
Inductive Direction := asc | desc.

(** The query constraints the code builds: [where(f, 'array-contains', v)],
    [orderBy(f, dir)], [startAfter(snapshot)], [limit(n)]. *)
Inductive QueryConstraint :=
| where_array_contains (f : FieldPath) (v : jsstring)
| orderBy (f : FieldPath) (dir : Direction)
| startAfter (cursor : QueryDocumentSnapshot)
| limit (n : Z).

#[global] Instance FieldPath_eq_dec : EqDecision FieldPath.
Proof. solve_decision. Defined.
#[global] Instance Direction_eq_dec : EqDecision Direction.
Proof. solve_decision. Defined.
#[global] Instance QueryConstraint_eq_dec : EqDecision QueryConstraint.
Proof. solve_decision. Defined.

(** A partial update of an image document. *)
Record Patch : Type := mkPatch {
  p_description : option string;
  p_labels : option (list jsstring);
  p_position : option Z
}.

#[global] Instance Patch_eq_dec : EqDecision Patch.
Proof. solve_decision. Defined.

Definition apply_patch (p : Patch) (d : DocumentData) : DocumentData :=
  mkData (d_url d) (d_fileName d)
    (default (d_description d) (p_description p))
    (default (d_labels d) (p_labels p))
    (d_createdAt d)
    (match p_position p with Some n => Some n | None => d_position d end).

(** ** Requests, errors and the world *)

(** One request to the backend. *)
Inductive RemoteOp :=
| OpGetDocs (q : list QueryConstraint)
| OpGetImage (id : string)
| OpSetImage (id : string) (d : DocumentData)
| OpUpdateImage (id : string) (p : Patch)
| OpDeleteImage (id : string)
| OpUploadBytes (path : string)
| OpGetDownloadURL (path : string)
| OpDeleteObject (url : string)
| OpGetSettings
| OpSetSettings
| OpMergeSettings
| OpGetUser (uid : string).

(** A request that changes the remote store. *)
Definition is_write (op : RemoteOp) : bool :=
  match op with
  | OpSetImage _ _ | OpUpdateImage _ _ | OpDeleteImage _
  | OpUploadBytes _ | OpDeleteObject _ | OpSetSettings | OpMergeSettings => true
  | _ => false
  end.

(** Errors as the code makes them: a failed request, the SDK's refusal of an
    argument, a [new Error(msg)], and the re-throw
    [new Error(`prefix${error}`)]. *)
Inductive JsError :=
| GatewayError (op : RemoteOp)
| NotFound (op : RemoteOp)
| InvalidArgument (functionName : string) (value : Z)
| PlainError (msg : string)
| Wrapped (prefix : string) (cause : JsError).

(** User-visible effects other than React state. *)
Inductive UiEffect :=
| ConsoleLog (msg : string)
| ConsoleError (msg : string) (e : JsError)
| Alert (msg : string)
| UploadProgress (progress : Z) (status : string)
| MailTo (imageId : string)
| Reload.

Record World : Type := mkWorld {
  w_db : bool;                        (* [db] was initialised *)
  w_storage : bool;                   (* [storage] was initialised *)
  w_images : gmap string DocumentData;(* the [images] collection *)
  w_blobs : gset string;              (* stored objects, by download URL *)
  w_settings : option SiteSettings;   (* the [settings/site] document *)
  w_users : gmap string string;       (* [users/{uid}]: the [role] field *)
  w_session : option string;          (* uid of the signed-in user *)
  w_fault : RemoteOp → bool;          (* which requests fail *)
  w_calls : list RemoteOp;            (* requests issued, oldest first *)
  w_ui : list UiEffect                (* effects shown, oldest first *)
}.

Definition with_images (m : gmap string DocumentData) (w : World) : World :=
  mkWorld (w_db w) (w_storage w) m (w_blobs w) (w_settings w) (w_users w)
    (w_session w) (w_fault w) (w_calls w) (w_ui w).
Definition with_blobs (b : gset string) (w : World) : World :=
  mkWorld (w_db w) (w_storage w) (w_images w) b (w_settings w) (w_users w)
    (w_session w) (w_fault w) (w_calls w) (w_ui w).
Definition with_settings (s : option SiteSettings) (w : World) : World :=
  mkWorld (w_db w) (w_storage w) (w_images w) (w_blobs w) s (w_users w)
    (w_session w) (w_fault w) (w_calls w) (w_ui w).
Definition log_call (op : RemoteOp) (w : World) : World :=
  mkWorld (w_db w) (w_storage w) (w_images w) (w_blobs w) (w_settings w)
    (w_users w) (w_session w) (w_fault w) (w_calls w ++ [op]) (w_ui w).
Definition log_ui (e : UiEffect) (w : World) : World :=
  mkWorld (w_db w) (w_storage w) (w_images w) (w_blobs w) (w_settings w)
    (w_users w) (w_session w) (w_fault w) (w_calls w) (w_ui w ++ [e]).

(** The remote writes issued so far. *)
Definition writes (w : World) : list RemoteOp := filter (λ op, is_write op = true) (w_calls w).

(** ** The monad of asynchronous code

    An [async] function threads the world and either returns or throws; the
    effects made before a throw stay. *)
Inductive Result (A : Type) : Type :=
| Ok (a : A)
| Err (e : JsError).
Arguments Ok {A} a.
Arguments Err {A} e.

Definition M (A : Type) : Type := World → Result A * World.

Definition ret {A} (a : A) : M A := λ w, (Ok a, w).
Definition throw {A} (e : JsError) : M A := λ w, (Err e, w).
Definition bind {A B} (m : M A) (k : A → M B) : M B :=
  λ w, match m w with
       | (Ok a, w') => k a w'
       | (Err e, w') => (Err e, w')
       end.
(** [try { m } catch (error) { h error }] *)
Definition try_catch {A} (m : M A) (h : JsError → M A) : M A :=
  λ w, match m w with
       | (Ok a, w') => (Ok a, w')
       | (Err e, w') => h e w'
       end.
Definition get_world : M World := λ w, (Ok w, w).
Definition modify (f : World → World) : M unit := λ w, (Ok tt, f w).
Definition ui (e : UiEffect) : M unit := modify (log_ui e).

Notation "x <~ m ;; k" := (bind m (λ x, k))
  (at level 100, m at next level, right associativity).
Notation "m ;;; k" := (bind m (λ _, k))
  (at level 100, right associativity).

(** Issue a request: it is logged, and fails when the oracle says so. *)
Definition request (op : RemoteOp) : M unit :=
  λ w, let w' := log_call op w in
       if w_fault w op then (Err (GatewayError op), w') else (Ok tt, w').

(** ** The backend

    Reference behaviour of the requests the code issues.  Queries follow the
    gateway contract: keep the documents that match the filter and that have
    every ordered field, order them by the [orderBy] keys (ties by document
    id, in the direction of the last key), start strictly after the cursor,
    and cut at the limit. *)

Definition cmp_field (f : FieldPath) (a b : DocumentData) : comparison :=
  match f with
  | fld_createdAt => String.compare (d_createdAt a) (d_createdAt b)
  | fld_position =>
      match d_position a, d_position b with
      | Some x, Some y => Z.compare x y
      | None, Some _ => Lt
      | Some _, None => Gt
      | None, None => Eq
      end
  | fld_labels => Eq
  end.

Definition cmp_dir (dir : Direction) (c : comparison) : comparison :=
  match dir with asc => c | desc => CompOpp c end.

Definition lex (c1 c2 : comparison) : comparison :=
  match c1 with Eq => c2 | _ => c1 end.

Fixpoint cmp_snapshots (last_dir : Direction) (q : list QueryConstraint)
    (a b : QueryDocumentSnapshot) : comparison :=
  match q with
  | [] => cmp_dir last_dir (String.compare (snap_id a) (snap_id b))
  | orderBy f dir :: q' =>
      lex (cmp_dir dir (cmp_field f (snap_data a) (snap_data b)))
          (cmp_snapshots dir q' a b)
  | _ :: q' => cmp_snapshots last_dir q' a b
  end.

(** [a] is not after [b] in the order of the query. *)
Definition query_le (q : list QueryConstraint) (a b : QueryDocumentSnapshot) : Prop :=
  cmp_snapshots asc q a b ≠ Gt.

#[global] Instance query_le_dec q : RelDecision (query_le q).
Proof. intros a b. unfold query_le. apply _. Defined.

Definition has_field (f : FieldPath) (d : DocumentData) : bool :=
  match f with
  | fld_position => bool_decide (is_Some (d_position d))
  | _ => true
  end.

Definition matches (d : QueryDocumentSnapshot) (c : QueryConstraint) : bool :=
  match c with
  | where_array_contains fld_labels v => bool_decide (v ∈ d_labels (snap_data d))
  | where_array_contains _ _ => false
  | orderBy f _ => has_field f (snap_data d)
  | _ => true
  end.

Fixpoint drop_while {A} (p : A → bool) (l : list A) : list A :=
  match l with
  | [] => []
  | x :: l' => if p x then drop_while p l' else l
  end.

(** A [limit n] constraint has a positive [n]: the SDK builds no other (see
    [validatePositiveNumber] below). *)
Definition apply_cursor (q : list QueryConstraint) (c : QueryConstraint)
    (l : list QueryDocumentSnapshot) : list QueryDocumentSnapshot :=
  match c with
  | startAfter cur => drop_while (λ d, bool_decide (query_le q d cur)) l
  | limit n => take (Z.to_nat n) l
  | _ => l
  end.

Definition snapshots (m : gmap string DocumentData) : list QueryDocumentSnapshot :=
  (λ kv, mkSnap kv.1 kv.2) <$> map_to_list m.

Definition runQuery (q : list QueryConstraint) (m : gmap string DocumentData)
    : list QueryDocumentSnapshot :=
  let matching := filter (λ d, forallb (matches d) q = true) (snapshots m) in
  foldl (λ l c, apply_cursor q c l) (merge_sort (query_le q) matching) q.

(** [getDocs(query(collection(db, 'images'), ...constraints))] *)
Definition getDocs (q : list QueryConstraint) : M (list QueryDocumentSnapshot) :=
  request (OpGetDocs q) ;;;
  w <~ get_world ;;
  ret (runQuery q (w_images w)).

(** [getDoc(doc(db, 'images', id))]: [None] when [exists()] is false. *)
Definition getImageDoc (id : string) : M (option DocumentData) :=
  request (OpGetImage id) ;;;
  w <~ get_world ;;
  ret (w_images w !! id).

(** [setDoc(doc(db, 'images', id), data)] *)
Definition setImageDoc (id : string) (d : DocumentData) : M unit :=
  request (OpSetImage id d) ;;;
  modify (λ w, with_images (<[id := d]> (w_images w)) w).

(** [updateDoc(doc(db, 'images', id), patch)]: fails on a missing document. *)
Definition updateImageDoc (id : string) (p : Patch) : M unit :=
  request (OpUpdateImage id p) ;;;
  w <~ get_world ;;
  match w_images w !! id with
  | Some d => modify (with_images (<[id := apply_patch p d]> (w_images w)))
  | None => throw (NotFound (OpUpdateImage id p))
  end.

(** [deleteDoc(doc(db, 'images', id))] *)
Definition deleteImageDoc (id : string) : M unit :=
  request (OpDeleteImage id) ;;;
  modify (λ w, with_images (delete id (w_images w)) w).

(** [deleteObject(ref(storage, url))]: fails on a missing object. *)
Definition deleteObject (url : string) : M unit :=
  request (OpDeleteObject url) ;;;
  w <~ get_world ;;
  if bool_decide (url ∈ w_blobs w)
  then modify (with_blobs (w_blobs w ∖ {[url]}))
  else throw (NotFound (OpDeleteObject url)).

(** ** [src/lib/firebase.ts] *)

(** [limit(n)] of the SDK checks its argument before it builds the
    constraint ([validatePositiveNumber('limit', n)]): a limit that is not
    positive is refused with an [invalid-argument] error. *)
Definition validatePositiveNumber (functionName : string) (n : Z) : M unit :=
  if n <=? 0 then throw (InvalidArgument functionName n) else ret tt.

(** The constraints [getPaginatedImages] pushes, in order.  [if (category)]
    is false for [null] and for the empty string.  The [position] ordering is
    commented out in the source. *)
Definition paginated_constraints (pageSize : Z)
    (lastVisible : option QueryDocumentSnapshot) (category : option jsstring)
    : list QueryConstraint :=
  (match category with
   | Some c => if bool_decide (c = []) then [] else [where_array_contains fld_labels c]
   | None => []
   end)
  ++ [orderBy fld_createdAt desc]
  ++ (match lastVisible with Some cur => [startAfter cur] | None => [] end)
  ++ [limit pageSize].

Module PaginatedImagesResult.
Record t : Type := mk {
  images : list ImageMetadata;
  lastVisible : option QueryDocumentSnapshot;
  hasMore : bool
}.
End PaginatedImagesResult.
Abbreviation PaginatedImagesResult := PaginatedImagesResult.t.

Definition getPaginatedImages (pageSize : Z)
    (lastVisible : option QueryDocumentSnapshot) (category : option jsstring)
    : M PaginatedImagesResult :=
  w <~ get_world ;;
  if negb (w_db w) then throw (PlainError "Firestore is not initialized") else
  try_catch
    (validatePositiveNumber "limit" pageSize ;;;
     let constraints := paginated_constraints pageSize lastVisible category in
     ui (ConsoleLog "Fetching images with constraints:") ;;;
     docs <~ getDocs constraints ;;
     let images := image_of_snapshot <$> docs in
     let newLastVisible := last docs in
     let hasMore := bool_decide (Z.of_nat (length docs) = pageSize) in
     ret (PaginatedImagesResult.mk images newLastVisible hasMore))
    (λ error,
       ui (ConsoleError "Error fetching paginated images:" error) ;;;
       throw (Wrapped "Failed to fetch images: " error)).

(** [updateImageMetadata] *)
Definition updateImageMetadata (imageId : string) (metadata : Patch) : M unit :=
  w <~ get_world ;;
  if negb (w_db w) then throw (PlainError "Firestore is not initialized") else
  try_catch
    (updateImageDoc imageId metadata)
    (λ error, throw (Wrapped "Failed to update image metadata: " error)).

(** The body of the [for (const imageId of imageIds)] loop of [deleteImages],
    and the loop. *)
Definition deleteImage_step (imageId : string) : M unit :=
  imageDoc <~ getImageDoc imageId ;;
  match imageDoc with
  | None => ret tt                                   (* [continue] *)
  | Some imageData =>
      deleteObject (d_url imageData) ;;;
      deleteImageDoc imageId
  end.

Fixpoint deleteImages_loop (imageIds : list string) : M unit :=
  match imageIds with
  | [] => ret tt
  | imageId :: rest => deleteImage_step imageId ;;; deleteImages_loop rest
  end.

Definition deleteImages (imageIds : list string) : M unit :=
  w <~ get_world ;;
  if negb (w_db w) || negb (w_storage w)
  then throw (PlainError "Firebase services not initialized") else
  try_catch
    (deleteImages_loop imageIds)
    (λ error, throw (Wrapped "Failed to delete images: " error)).

(** [setDoc(settingsRef, {...settings, updatedAt}, { merge: true })] *)
Definition merge_settings (new old : SiteSettings) : SiteSettings :=
  mkSettings
    (match loginBackgroundUrl new with Some x => Some x | None => loginBackgroundUrl old end)
    (match aboutImage new with Some x => Some x | None => aboutImage old end)
    (match aboutText new with Some x => Some x | None => aboutText old end)
    (match updatedAt new with Some x => Some x | None => updatedAt old end).

Definition default_settings (now : string) : SiteSettings :=
  mkSettings (Some "https://images.unsplash.com/photo-1452421822248-d4c2b47f0c81")
    (Some "") (Some "") (Some now).

(** [updateSiteSettings]; [now] is [new Date().toISOString()]. *)
Definition updateSiteSettings (now : string) (settings : SiteSettings) : M unit :=
  w <~ get_world ;;
  if negb (w_db w) then throw (PlainError "Firestore is not initialized") else
  try_catch
    (request OpGetSettings ;;;
     w1 <~ get_world ;;
     (match w_settings w1 with
      | None =>
          request OpSetSettings ;;;
          modify (with_settings (Some (default_settings now)))
      | Some _ => ret tt
      end) ;;;
     request OpMergeSettings ;;;
     modify (λ w2,
       let new := merge_settings (mkSettings None None None (Some now)) settings in
       with_settings
         (Some (merge_settings new (default (mkSettings None None None None) (w_settings w2))))
         w2))
    (λ error, throw (Wrapped "Failed to update site settings: " error)).

(** [checkAdminStatus(user)] for a non-null user. *)
Definition checkAdminStatus (uid : string) : M bool :=
  w <~ get_world ;;
  if negb (w_db w) then ret false else
  try_catch
    (request (OpGetUser uid) ;;;
     w1 <~ get_world ;;
     ret (bool_decide (w_users w1 !! uid = Some "admin")))
    (λ error,
       ui (ConsoleError "Error checking admin status:" error) ;;;
       ret false).

(** [getDownloadURL(ref)]: where the gateway serves the object stored at
    [path]. *)
Definition download_url (path : string) : string :=
  "https://firebasestorage.googleapis.com/" +:+ path.

(** [uploadImage(file, onProgress)].  [fileName] is [file.name], [now_ms] is
    [Date.now()] in decimal, [now] is [new Date().toISOString()], [newId] is
    the id of [doc(collection(db, 'images'))].  The promise is returned
    without [await], so its rejections are not re-wrapped by the [catch].
    The [running] notifications of [onProgress] are not represented. *)
Definition uploadImage (fileName now_ms now newId : string) : M ImageMetadata :=
  w <~ get_world ;;
  if negb (w_storage w) || negb (w_db w)
  then throw (PlainError "Firebase services not initialized") else
  let path := "images/" +:+ now_ms +:+ "-" +:+ fileName in
  try_catch (request (OpUploadBytes path))
    (λ error, ui (UploadProgress 0 "error") ;;; throw error) ;;;
  modify (λ w1, with_blobs ({[download_url path]} ∪ w_blobs w1) w1) ;;;
  request (OpGetDownloadURL path) ;;;
  let downloadURL := download_url path in
  let imageData := mkData downloadURL fileName "" [] now (Some 0) in
  setImageDoc newId imageData ;;;
  ui (UploadProgress 100 "success") ;;;
  ret (image_of_snapshot (mkSnap newId imageData)).

(** ** Strings as the handlers use them

    [String.prototype.trim] removes the white space and the line terminators
    of ECMAScript from both ends: TAB, LF, VT, FF, CR, SPACE, NBSP, U+1680,
    U+2028, U+2029, U+202F, U+205F, U+3000, U+FEFF, and U+2000 to U+200A.
    Each is one code unit. *)
Definition is_js_space (c : N) : bool :=
  existsb (N.eqb c)
    [9; 10; 11; 12; 13; 32; 160; 5760; 8232; 8233; 8239; 8287; 12288; 65279]%N
  || (8192 <=? c)%N && (c <=? 8202)%N.

(** The code unit of [','] . *)
Definition comma : N := 44.

Definition is_empty (s : jsstring) : bool :=
  match s with [] => true | _ => false end.

(** [s.split(sep)] for a separator of one code unit: never the empty list. *)
Fixpoint split (sep : N) (s : jsstring) : list jsstring :=
  match s with
  | [] => [[]]
  | c :: s' =>
      if N.eqb c sep then [] :: split sep s'
      else match split sep s' with
           | piece :: pieces => (c :: piece) :: pieces
           | [] => [[c]]
           end
  end.

Fixpoint trim_start (s : jsstring) : jsstring :=
  match s with
  | [] => []
  | c :: s' => if is_js_space c then trim_start s' else s
  end.

Fixpoint trim_end (s : jsstring) : jsstring :=
  match s with
  | [] => []
  | c :: s' =>
      let t := trim_end s' in
      if is_js_space c && is_empty t then [] else c :: t
  end.

(** [s.trim()] *)
Definition trim (s : jsstring) : jsstring := trim_end (trim_start s).

(** [labels.split(',').map(label => label.trim()).filter(Boolean)] *)
Definition parse_labels (labels : jsstring) : list jsstring :=
  filter (λ l, is_empty l = false) (trim <$> split comma labels).

(** [a.join(sep)] *)
Fixpoint join (sep : jsstring) (a : list jsstring) : jsstring :=
  match a with
  | [] => []
  | x :: rest =>
      match rest with
      | [] => x
      | _ :: _ => x ++ sep ++ join sep rest
      end
  end.

(** [Array.from(new Set(l))]: first occurrences, in order. *)
Definition array_from_set (l : list jsstring) : list jsstring :=
  foldl (λ acc x, if bool_decide (x ∈ acc) then acc else acc ++ [x]) [] l.

(** ** The [Gallery] component *)

Definition PAGE_SIZE : Z := 12.

(** The [useState] cells.  [selectedImages] is a [Set<string>], which
    iterates in insertion order: a list without repetition. *)
Record GalleryState : Type := mkGallery {
  images : list ImageMetadata;
  loading : bool;
  loadingMore : bool;
  error : option string;
  isAdmin : bool;
  editingImage : option string;
  selectedImages : list string;
  isSelectionMode : bool;
  selectedCategory : option jsstring;
  categories : list jsstring;
  lastVisible : option QueryDocumentSnapshot;
  hasMore : bool
}.

(** The state of a freshly mounted component. *)
Definition initial_state : GalleryState :=
  mkGallery [] true false None false None [] false None [] None true.

Definition setImages v s := mkGallery v (loading s) (loadingMore s) (error s) (isAdmin s)
  (editingImage s) (selectedImages s) (isSelectionMode s) (selectedCategory s)
  (categories s) (lastVisible s) (hasMore s).
Definition setLoading v s := mkGallery (images s) v (loadingMore s) (error s) (isAdmin s)
  (editingImage s) (selectedImages s) (isSelectionMode s) (selectedCategory s)
  (categories s) (lastVisible s) (hasMore s).
Definition setLoadingMore v s := mkGallery (images s) (loading s) v (error s) (isAdmin s)
  (editingImage s) (selectedImages s) (isSelectionMode s) (selectedCategory s)
  (categories s) (lastVisible s) (hasMore s).
Definition setError v s := mkGallery (images s) (loading s) (loadingMore s) v (isAdmin s)
  (editingImage s) (selectedImages s) (isSelectionMode s) (selectedCategory s)
  (categories s) (lastVisible s) (hasMore s).
Definition setIsAdmin v s := mkGallery (images s) (loading s) (loadingMore s) (error s) v
  (editingImage s) (selectedImages s) (isSelectionMode s) (selectedCategory s)
  (categories s) (lastVisible s) (hasMore s).
Definition setEditingImage v s := mkGallery (images s) (loading s) (loadingMore s) (error s)
  (isAdmin s) v (selectedImages s) (isSelectionMode s) (selectedCategory s)
  (categories s) (lastVisible s) (hasMore s).
Definition setSelectedImages v s := mkGallery (images s) (loading s) (loadingMore s) (error s)
  (isAdmin s) (editingImage s) v (isSelectionMode s) (selectedCategory s)
  (categories s) (lastVisible s) (hasMore s).
Definition setIsSelectionMode v s := mkGallery (images s) (loading s) (loadingMore s) (error s)
  (isAdmin s) (editingImage s) (selectedImages s) v (selectedCategory s)
  (categories s) (lastVisible s) (hasMore s).
Definition setCategories v s := mkGallery (images s) (loading s) (loadingMore s) (error s)
  (isAdmin s) (editingImage s) (selectedImages s) (isSelectionMode s) (selectedCategory s)
  v (lastVisible s) (hasMore s).
Definition setLastVisible v s := mkGallery (images s) (loading s) (loadingMore s) (error s)
  (isAdmin s) (editingImage s) (selectedImages s) (isSelectionMode s) (selectedCategory s)
  (categories s) v (hasMore s).
Definition setHasMore v s := mkGallery (images s) (loading s) (loadingMore s) (error s)
  (isAdmin s) (editingImage s) (selectedImages s) (isSelectionMode s) (selectedCategory s)
  (categories s) (lastVisible s) v.

(** A handler: it reads and updates the React state and the world. *)
Definition Handler : Type := GalleryState → World → GalleryState * World.

(** The [checkAdmin] effect: [getCurrentUser], then [checkAdminStatus]. *)
Definition checkAdmin : Handler := λ s w,
  match w_session w with
  | Some uid =>
      match checkAdminStatus uid w with
      | (Ok adminStatus, w') => (setIsAdmin adminStatus s, w')
      | (Err _, w') => (s, w')
      end
  | None => (s, w)
  end.

Definition all_labels (imgs : list ImageMetadata) : list jsstring :=
  foldl (λ acc img, acc ++ ImageMetadata.labels img) [] imgs.

(** [updateCategories(loadedImages)] *)
Definition updateCategories (loadedImages : list ImageMetadata) (s : GalleryState)
    : GalleryState :=
  setCategories (array_from_set (all_labels loadedImages)) s.

(** [loadInitialImages], run when [selectedCategory] changes. *)
Definition loadInitialImages : Handler := λ s w,
  let s := setLoading true s in
  match getPaginatedImages PAGE_SIZE None (selectedCategory s) w with
  | (Ok result, w') =>
      let s := setImages (PaginatedImagesResult.images result) s in
      let s := setLastVisible (PaginatedImagesResult.lastVisible result) s in
      let s := setHasMore (PaginatedImagesResult.hasMore result) s in
      let s := setError None s in
      let s := updateCategories (PaginatedImagesResult.images result) s in
      (setLoading false s, w')
  | (Err err, w') =>
      let w' := log_ui (ConsoleError "Error loading images:" err) w' in
      let s := setError (Some "Failed to load images. Please try again later.") s in
      (setLoading false s, w')
  end.

Definition handleLoadMore : Handler := λ s w,
  if negb (hasMore s) || loadingMore s then (s, w) else
  let s := setLoadingMore true s in
  match getPaginatedImages PAGE_SIZE (lastVisible s) (selectedCategory s) w with
  | (Ok result, w') =>
      let s := setImages (images s ++ PaginatedImagesResult.images result) s in
      let s := setLastVisible (PaginatedImagesResult.lastVisible result) s in
      let s := setHasMore (PaginatedImagesResult.hasMore result) s in
      let newLabels := all_labels (PaginatedImagesResult.images result) in
      let s := setCategories (array_from_set (categories s ++ newLabels)) s in
      (setLoadingMore false s, w')
  | (Err err, w') =>
      let w' := log_ui (ConsoleError "Error loading more images:" err) w' in
      (setLoadingMore false s, w')
  end.

(** The [result] the drag library passes to [onDragEnd]: the index of the
    dragged item and, when it was dropped on the list, the index of the drop
    slot. *)
Record DropResult : Type := mkDrop {
  source_index : nat;
  destination : option nat
}.

(** [a.splice(i, 1)] leaves [a] without its element [i] (all of [a] when [i]
    is past the end), and [a.splice(i, 0, x)] puts [x] before element [i] (at
    the end when [i] is past the end). *)
Definition splice_out {A} (i : nat) (a : list A) : list A := take i a ++ drop (S i) a.
Definition splice_in {A} (i : nat) (x : A) (a : list A) : list A := take i a ++ x :: drop i a.

(** [reorderedImages.map((image, index) => ({ ...image, position: index }))] *)
Definition renumber (reorderedImages : list ImageMetadata) : list ImageMetadata :=
  imap (λ index image, ImageMetadata.with_position (Some (Z.of_nat index)) image)
       reorderedImages.

(** [updateDoc(doc(db, 'images', image.id), { position: image.position })] *)
Definition position_update (image : ImageMetadata) : M unit :=
  updateImageDoc (ImageMetadata.id image) (mkPatch None None (ImageMetadata.position image)).

(** [await Promise.all(updates)]: every request of [updates] has been issued
    by the [map] before the [await], so each one reaches the gateway whether
    or not another fails; the result is the first rejection, if any. *)
Fixpoint promise_all (updates : list (M unit)) (w : World) : option JsError * World :=
  match updates with
  | [] => (None, w)
  | u :: rest =>
      match u w with
      | (Ok _, w') => promise_all rest w'
      | (Err e, w') => (Some e, (promise_all rest w').2)
      end
  end.

(** [handleDragEnd(result)].  The result is [None] when [result.source.index]
    names no loaded record: the library reports the [index] prop of a rendered
    [Draggable], which is a position of [images]. *)
Definition handleDragEnd (result : DropResult) (s : GalleryState) (w : World)
    : option (GalleryState * World) :=
  match destination result with
  | None => Some (s, w)
  | Some destination_index =>
      if negb (isAdmin s) then Some (s, w) else
      removed ← images s !! source_index result;
      let reorderedImages :=
        splice_in destination_index removed (splice_out (source_index result) (images s)) in
      let updatedImages := renumber reorderedImages in
      let s := setImages updatedImages s in
      match promise_all (position_update <$> updatedImages) w with
      | (None, w') => Some (s, w')
      | (Some err, w') =>
          let w' := log_ui (ConsoleError "Failed to update image positions:" err) w' in
          Some (s, log_ui Reload w')
      end
  end.

Definition handleUpdate (imageId description : string) (labels : jsstring) : Handler := λ s w,
  let updatedLabels := parse_labels labels in
  match updateImageMetadata imageId (mkPatch (Some description) (Some updatedLabels) None) w with
  | (Ok _, w') =>
      let s := setImages
        ((λ img, if bool_decide (ImageMetadata.id img = imageId)
                 then ImageMetadata.with_metadata description updatedLabels img
                 else img) <$> images s) s in
      (setEditingImage None s, w')
  | (Err err, w') =>
      let w' := log_ui (ConsoleError "Failed to update image:" err) w' in
      (s, log_ui (Alert "Failed to update image. Please try again.") w')
  end.

(** [handleSetAsBackground(imageUrl)]; [now] is the clock read by
    [updateSiteSettings]. *)
Definition handleSetAsBackground (now imageUrl : string) : Handler := λ s w,
  match updateSiteSettings now (mkSettings (Some imageUrl) None None None) w with
  | (Ok _, w') => (s, log_ui (Alert "Login background updated successfully") w')
  | (Err err, w') =>
      let w' := log_ui (ConsoleError "Failed to update background:" err) w' in
      (s, log_ui (Alert "Failed to update background. Please try again.") w')
  end.

(** [handleDelete(imageId)]; [confirmed] is the answer to [confirm(...)]. *)
Definition handleDelete (confirmed : bool) (imageId : string) : Handler := λ s w,
  if negb confirmed then (s, w) else
  match deleteImages [imageId] w with
  | (Ok _, w') =>
      (setImages (filter (λ img, ImageMetadata.id img ≠ imageId) (images s)) s, w')
  | (Err err, w') =>
      let w' := log_ui (ConsoleError "Failed to delete image:" err) w' in
      (s, log_ui (Alert "Failed to delete image. Please try again.") w')
  end.

Definition handleBulkDelete (confirmed : bool) : Handler := λ s w,
  if bool_decide (selectedImages s = []) then (s, w) else
  if negb confirmed then (s, w) else
  match deleteImages (selectedImages s) w with
  | (Ok _, w') =>
      let s' := setImages
        (filter (λ img, ImageMetadata.id img ∉ selectedImages s) (images s)) s in
      let s' := setSelectedImages [] s' in
      (setIsSelectionMode false s', w')
  | (Err err, w') =>
      let w' := log_ui (ConsoleError "Failed to delete images:" err) w' in
      (s, log_ui (Alert "Failed to delete images. Please try again.") w')
  end.

Definition handleContact (image : ImageMetadata) : Handler := λ s w,
  (s, log_ui (MailTo (ImageMetadata.id image)) w).

Definition toggleImageSelection (imageId : string) : Handler := λ s w,
  if negb (isAdmin s) then (s, w) else
  let s := setIsSelectionMode true s in
  if bool_decide (imageId ∈ selectedImages s) then
    let newSelection := filter (λ x, x ≠ imageId) (selectedImages s) in
    let s := if bool_decide (newSelection = []) then setIsSelectionMode false s else s in
    (setSelectedImages newSelection s, w)
  else (setSelectedImages (selectedImages s ++ [imageId]) s, w).

(** ** What the render offers

    A user action, with what the user supplies (the drop slot, the answer to
    a confirmation, the text of the edit form). *)
Inductive Action :=
| ActRetry
| ActLoadMore
| ActContact (image : ImageMetadata)
| ActDrag (result : DropResult)
| ActToggle (imageId : string)
| ActSetAsBackground (now imageUrl : string)
| ActEdit (imageId : string)
| ActCancelEdit
| ActSave (imageId description : string) (labels : jsstring)
| ActDelete (confirmed : bool) (imageId : string)
| ActBulkDelete (confirmed : bool).

Definition shown (s : GalleryState) (imageId : string) : bool :=
  bool_decide (imageId ∈ ImageMetadata.id <$> images s).

(** Whether the JSX returned by the component in state [s] carries the
    control that fires the action. *)
Definition offered (s : GalleryState) (a : Action) : bool :=
  if loading s then false else
  match error s with
  | Some _ => match a with ActRetry => true | _ => false end
  | None =>
      if bool_decide (images s = []) then false else
      match a with
      | ActRetry => false
      | ActLoadMore => negb (loadingMore s) && hasMore s
      | ActContact image => negb (isAdmin s) && bool_decide (image ∈ images s)
      | ActDrag result =>
          isAdmin s && bool_decide (source_index result < length (images s))%nat
      | ActToggle imageId => isAdmin s && shown s imageId
      | ActSetAsBackground _ imageUrl =>
          isAdmin s && bool_decide (imageUrl ∈ ImageMetadata.url <$> images s)
      | ActEdit imageId => isAdmin s && shown s imageId
      | ActDelete _ imageId => isAdmin s && shown s imageId
      | ActCancelEdit =>
          match editingImage s with Some e => shown s e | None => false end
      | ActSave imageId _ _ => bool_decide (editingImage s = Some imageId) && shown s imageId
      | ActBulkDelete _ => isAdmin s && negb (bool_decide (selectedImages s = []))
      end
  end.

(** Mounting the component: the state cells start at their initial values
    and the two effects run, [checkAdmin] and [loadInitialImages], which
    write different cells.  The result is the state once both have
    settled. *)
Definition mount (w : World) : GalleryState * World :=
  let r := checkAdmin initial_state w in
  loadInitialImages r.1 r.2.

(** The handlers a control fires.  The Cancel and Save buttons of the edit
    form do not stop the click, which bubbles to the card: for an admin the
    card's handler then toggles the selection of the edited record. *)
Definition fire (a : Action) (s : GalleryState) (w : World) : option (GalleryState * World) :=
  match a with
  | ActRetry => Some (s, log_ui Reload w)
  | ActLoadMore => Some (handleLoadMore s w)
  | ActContact image => Some (handleContact image s w)
  | ActDrag result => handleDragEnd result s w
  | ActToggle imageId => Some (toggleImageSelection imageId s w)
  | ActSetAsBackground now imageUrl => Some (handleSetAsBackground now imageUrl s w)
  | ActEdit imageId => Some (setEditingImage (Some imageId) s, w)
  | ActCancelEdit =>
      let s' := setEditingImage None s in
      Some (match editingImage s with
            | Some imageId => toggleImageSelection imageId s' w
            | None => (s', w)
            end)
  | ActSave imageId description labels =>
      let r := handleUpdate imageId description labels s w in
      Some (toggleImageSelection imageId r.1 r.2)
  | ActDelete confirmed imageId => Some (handleDelete confirmed imageId s w)
  | ActBulkDelete confirmed => Some (handleBulkDelete confirmed s w)
  end.

Definition is_reload (e : UiEffect) : bool :=
  match e with Reload => true | _ => false end.

(** [window.location.reload()] was called between [w] and [w']. *)
Definition reloaded (w w' : World) : bool :=
  existsb is_reload (drop (length (w_ui w)) (w_ui w')).

(** A control is used: its handlers run, and when they asked for a reload
    the page loads anew, which mounts the component again, in the world as
    the handlers left it. *)
Definition step (a : Action) (s : GalleryState) (w : World) : option (GalleryState * World) :=
  match fire a s w with
  | Some (s', w') => Some (if reloaded w w' then mount w' else (s', w'))
  | None => None
  end.

(** A session: the user fires, one after the other, controls that the
    render of the current state offers.  [None] when a control is not offered
    (or the step is outside the model). *)
Fixpoint run (acts : list Action) (s : GalleryState) (w : World)
    : option (GalleryState * World) :=
  match acts with
  | [] => Some (s, w)
  | a :: rest =>
      if offered s a then
        match step a s w with
        | Some (s', w') => run rest s' w'
        | None => None
        end
      else None
  end.

(** ** The earlier, unpaginated [Gallery] ([loadImages])

    Its query orders by [position] first. *)
Definition loadImages_constraints (selectedCategory : option jsstring) : list QueryConstraint :=
  match selectedCategory with
  | Some c =>
      if bool_decide (c = [])
      then [orderBy fld_position asc; orderBy fld_createdAt desc]
      else [where_array_contains fld_labels c; orderBy fld_position asc;
            orderBy fld_createdAt desc]
  | None => [orderBy fld_position asc; orderBy fld_createdAt desc]
  end.

(** ** Scenarios

    A three-record collection, newest first [a], [b], [c]; [b] has no
    [position]. *)
Definition doc_a : DocumentData :=
  mkData "url-a" "a.jpg" "" [] "2024-01-03T00:00:00.000Z" (Some 0).
Definition doc_b : DocumentData :=
  mkData "url-b" "b.jpg" "" [js "sea"] "2024-01-02T00:00:00.000Z" None.
Definition doc_c : DocumentData :=
  mkData "url-c" "c.jpg" "" [] "2024-01-01T00:00:00.000Z" (Some 0).

Definition three_images : gmap string DocumentData :=
  <["a" := doc_a]> (<["b" := doc_b]> (<["c" := doc_c]> ∅)).

Definition no_fault : RemoteOp → bool := λ _, false.

(** An initialised client in front of the three-record collection, with a
    given fault oracle. *)
Definition world_with (fault : RemoteOp → bool) : World :=
  mkWorld true true three_images {["url-a"; "url-b"; "url-c"]} None ∅ None fault [] [].

Definition world3 : World := world_with no_fault.

Definition image_a : ImageMetadata := image_of_snapshot (mkSnap "a" doc_a).
Definition image_b : ImageMetadata := image_of_snapshot (mkSnap "b" doc_b).
Definition image_c : ImageMetadata := image_of_snapshot (mkSnap "c" doc_c).

(** The first page of size two of the three-record collection. *)
Definition first_page_of_two : PaginatedImagesResult :=
  PaginatedImagesResult.mk [image_a; image_b] (Some (mkSnap "b" doc_b)) true.

(** The gallery after the first page of size 12 was loaded. *)
Definition loaded (admin : bool) : GalleryState :=
  mkGallery [image_a; image_b; image_c] false false None admin None [] false None
    [js "sea"] (Some (mkSnap "c" doc_c)) false.

(** The index, in the old sequence, of the record that a move from
    [sourceIndex] to [destinationIndex] brings to index [k]: the moved record
    lands on [destinationIndex], the records between the two indices shift by
    one towards [sourceIndex], the others stay. *)
Definition origin (sourceIndex destinationIndex k : nat) : nat :=
  if decide (k = destinationIndex) then sourceIndex
  else if decide (sourceIndex ≤ k < destinationIndex)%nat then S k
  else if decide (destinationIndex < k ≤ sourceIndex)%nat then (k - 1)%nat
  else k.

(** The request [handleDragEnd] issues for a record. *)
Definition position_write (image : ImageMetadata) : RemoteOp :=
  OpUpdateImage (ImageMetadata.id image) (mkPatch None None (ImageMetadata.position image)).

(** Two records created at the same instant, [x] with position 0 and [y]
    with position 1. *)
Definition doc_x : DocumentData :=
  mkData "url-x" "x.jpg" "" [] "2024-02-01T00:00:00.000Z" (Some 0).
Definition doc_y : DocumentData :=
  mkData "url-y" "y.jpg" "" [] "2024-02-01T00:00:00.000Z" (Some 1).
Definition twin_world : World :=
  mkWorld true true (<["x" := doc_x]> (<["y" := doc_y]> ∅)) {["url-x"; "url-y"]}
    None ∅ None no_fault [] [].

(** Thirteen records, one per day, in front of a gateway that fails every
    query that continues after a cursor. *)
Definition two_digits (n : nat) : string :=
  if decide (n < 10)%nat then "0" +:+ pretty n else pretty n.

Definition numbered_doc (n : nat) : DocumentData :=
  mkData ("url-" +:+ two_digits n) (two_digits n +:+ ".jpg") "" []
    ("2024-03-" +:+ two_digits n +:+ "T00:00:00.000Z") (Some 0).

Definition thirteen_images : gmap string DocumentData :=
  list_to_map ((λ n, ("img" +:+ two_digits n, numbered_doc n)) <$> seq 1 13).

Definition is_startAfter (c : QueryConstraint) : bool :=
  match c with startAfter _ => true | _ => false end.

Definition fault_after_cursor : RemoteOp → bool := λ op,
  match op with
  | OpGetDocs q => existsb is_startAfter q
  | _ => false
  end.

Definition world13 : World :=
  mkWorld true true thirteen_images ∅ None ∅ None fault_after_cursor [] [].




#[global] Instance RemoteOp_eq_dec : EqDecision RemoteOp.
Proof. solve_decision. Defined.

(** The three-record collection after [b] was removed behind the client's
    back. *)
Definition world_b_gone : World :=
  mkWorld true true (delete "b" three_images) {["url-a"; "url-c"]} None ∅ None
    no_fault [] [].

(** A gateway that refuses to delete the document [b]. *)
Definition fault_delete_b : RemoteOp → bool := λ op,
  bool_decide (op = OpDeleteImage "b").

(** An effect that only reaches the developer console. *)
Definition is_console (e : UiEffect) : bool :=
  match e with
  | ConsoleLog _ | ConsoleError _ _ => true
  | _ => false
  end.

(** ** Orders on the visible sequence *)

Definition is_orderBy (c : QueryConstraint) : bool :=
  match c with orderBy _ _ => true | _ => false end.

(** [a] may come before [b] when [a] is not older than [b]. *)
Definition createdAt_desc (a b : ImageMetadata) : Prop :=
  String.le (ImageMetadata.createdAt b) (ImageMetadata.createdAt a).

(** The order of the data model's words: [createdAt] descending first, then
    [position] ascending when both records have one. *)
Definition createdAt_desc_then_position (a b : ImageMetadata) : bool :=
  match String.compare (ImageMetadata.createdAt a) (ImageMetadata.createdAt b) with
  | Gt => true
  | Lt => false
  | Eq =>
      match ImageMetadata.position a, ImageMetadata.position b with
      | Some pa, Some pb => bool_decide (pa ≤ pb)
      | _, _ => true
      end
  end.

(** ** Words on strings

    What "comma-separated", "trimmed" and "empty" mean, stated apart from the
    functions that compute them. *)
Fixpoint all_space (s : jsstring) : bool :=
  match s with
  | [] => true
  | c :: s' => is_js_space c && all_space s'
  end.

Definition starts_with_space (s : jsstring) : bool :=
  match s with
  | c :: _ => is_js_space c
  | [] => false
  end.

Fixpoint ends_with_space (s : jsstring) : bool :=
  match s with
  | [] => false
  | c :: s' =>
      match s' with
      | [] => is_js_space c
      | _ :: _ => ends_with_space s'
      end
  end.

Fixpoint comma_free (s : jsstring) : bool :=
  match s with
  | [] => true
  | c :: s' => negb (N.eqb c comma) && comma_free s'
  end.

(** [t] is [s] without its leading and trailing white space. *)
Definition trimmed_of (s t : jsstring) : Prop :=
  ∃ l r, s = l ++ t ++ r
         ∧ all_space l = true ∧ all_space r = true
         ∧ starts_with_space t = false ∧ ends_with_space t = false.

(** [pieces] are the entries of the comma-separated [s]. *)
Definition entries_of (s : jsstring) (pieces : list jsstring) : Prop :=
  join [comma] pieces = s ∧ pieces ≠ [] ∧ Forall (λ p, comma_free p = true) pieces.

(** ** More of [src/lib/firebase.ts] *)

(** [getSiteSettings]: [null] when the document is missing and when the read
    fails. *)
Definition getSiteSettings : M (option SiteSettings) :=
  w <~ get_world ;;
  if negb (w_db w) then throw (PlainError "Firestore is not initialized") else
  try_catch
    (request OpGetSettings ;;;
     w1 <~ get_world ;;
     ret (w_settings w1))
    (λ error,
       ui (ConsoleError "Failed to get site settings:" error) ;;;
       ret None).

(** [interface AuthError] *)
Module AuthError.
Record t : Type := mk {
  code : string;
  message : string
}.
End AuthError.
Abbreviation AuthError := AuthError.t.

(** [formatAuthError]: the [switch] on [error.code]. *)
Definition formatAuthError (error : AuthError) : AuthError :=
  let c := AuthError.code error in
  let message :=
    if bool_decide (c = "auth/invalid-email") then "Invalid email address"
    else if bool_decide (c = "auth/user-disabled") then "This account has been disabled"
    else if bool_decide (c = "auth/user-not-found") then "No account found with this email"
    else if bool_decide (c = "auth/wrong-password") then "Incorrect password"
    else if bool_decide (c = "auth/email-already-in-use")
      then "An account with this email already exists"
    else if bool_decide (c = "auth/operation-not-allowed") then "Operation not allowed"
    else if bool_decide (c = "auth/weak-password")
      then "Password should be at least 6 characters"
    else "An error occurred. Please try again" in
  AuthError.mk c message.

(** What [loginUser] and [logoutUser] throw: the [Error] of the missing
    [auth], or the formatted error of a rejected request. *)
Inductive AuthFailure :=
| AuthNotInitialized (msg : string)
| AuthRejected (e : AuthError).

(** [loginUser(email, password)]; [auth] tells whether [auth] was
    initialised and [answer] is what [signInWithEmailAndPassword] settles
    with: a rejection or the signed-in user's uid. *)
Definition loginUser (auth : bool) (answer : AuthError + string) : AuthFailure + string :=
  if negb auth then inl (AuthNotInitialized "Authentication is not initialized") else
  match answer with
  | inr user => inr user
  | inl error => inl (AuthRejected (formatAuthError error))
  end.

(** [logoutUser()]; [answer] is the rejection of [signOut], if any. *)
Definition logoutUser (auth : bool) (answer : option AuthError) : AuthFailure + unit :=
  if negb auth then inl (AuthNotInitialized "Authentication is not initialized") else
  match answer with
  | None => inr tt
  | Some error => inl (AuthRejected (formatAuthError error))
  end.

(** ** More of the [Gallery] component *)

(** The record the earlier [loadImages] makes of the document at [index]:
    [{ id: doc.id, position: doc.data().position || index, ...doc.data() }].
    The spread comes last, so a stored [position] wins over the fallback. *)
Definition loadImages_image (index : nat) (d : QueryDocumentSnapshot) : ImageMetadata :=
  let x := snap_data d in
  ImageMetadata.mk (snap_id d) (d_url x) (d_fileName x) (d_description x)
    (d_labels x) (d_createdAt x)
    (match d_position x with
     | Some p => Some p
     | None => Some (Z.of_nat index)
     end).

(** The earlier [loadImages], run when [selectedCategory] changes.  It has
    no test of [db] of its own: without Firestore, [collection(db, 'images')]
    throws the SDK's error inside the [try]. *)
Definition loadImages : Handler := λ s w,
  match
    (if w_db w then getDocs (loadImages_constraints (selectedCategory s))
     else throw (PlainError
       "Expected first argument to collection() to be a CollectionReference, a DocumentReference or FirebaseFirestore"))
      w
  with
  | (Ok docs, w') =>
      let loadedImages := imap loadImages_image docs in
      let s := setCategories (array_from_set (all_labels loadedImages)) s in
      let s := setImages loadedImages s in
      let s := setError None s in
      (setLoading false s, w')
  | (Err err, w') =>
      let w' := log_ui (ConsoleError "Error loading images:" err) w' in
      let s := setError (Some "Failed to load images. Please try again later.") s in
      (setLoading false s, w')
  end.

(** The text the edit form shows for the labels of a record:
    [defaultValue={image.labels.join(', ')}]. *)
Definition labels_field (image : ImageMetadata) : jsstring :=
  join (js ", ") (ImageMetadata.labels image).

(** A label as [parse_labels] leaves it: not empty, without comma, without
    white space at either end. *)
Definition clean_label (l : jsstring) : Prop :=
  is_empty l = false ∧ comma_free l = true
  ∧ starts_with_space l = false ∧ ends_with_space l = false.

(** The selection of the bulk mode: no id twice, and the mode is on exactly
    when something is selected. *)
Definition selection_ok (s : GalleryState) : Prop :=
  NoDup (selectedImages s)
  ∧ (isSelectionMode s = true ↔ selectedImages s ≠ []).

(** What no handler touches: the client's initialisation, the faults of
    the gateway, the users collection and the session. *)
Definition same_backend (w w' : World) : Prop :=
  w_db w' = w_db w ∧ w_storage w' = w_storage w ∧ w_fault w' = w_fault w
  ∧ w_users w' = w_users w ∧ w_session w' = w_session w.

(** A position update cannot go through in [w]: the request fails or the
    document is gone. *)
Definition position_update_fails (w : World) (image : ImageMetadata) : Prop :=
  w_fault w (position_write image) = true
  ∨ w_images w !! ImageMetadata.id image = None.

(** A gateway that answers no request. *)
Definition all_fault : RemoteOp → bool := λ _, true.

(** A client whose Firebase services were not initialised. *)
Definition world_uninitialised : World :=
  mkWorld false false three_images {["url-a"; "url-b"; "url-c"]} None ∅ None
    no_fault [] [].

(** The three-record collection with an admin [u1] signed in. *)
Definition world_admin : World :=
  mkWorld true true three_images {["url-a"; "url-b"; "url-c"]} None
    (<["u1" := "admin"]> (<["u2" := "editor"]> ∅)) (Some "u1") no_fault [] [].

(** ** Tactics for the monad *)

Ltac unfold_monad :=
  unfold bind, ret, throw, try_catch, get_world, modify, ui, request in *.

(** Split on the innermost test of a hypothesis: a request's fault, an
    initialisation flag. *)
Ltac split_test H :=
  match type of H with
  | context [w_fault ?w ?op] =>
      let F := fresh "Hfault" in destruct (w_fault w op) eqn:F
  | context [w_db ?w] => let F := fresh "Hdb" in destruct (w_db w) eqn:F
  | context [w_storage ?w] => let F := fresh "Hstorage" in destruct (w_storage w) eqn:F
  end; simpl in H; simplify_eq.

(** * Paged fetch *)

(** [getPaginatedImages] past its guards: Firestore is there and the page
    size is positive. *)
Lemma getPaginatedImages_guarded
    (pageSize : Z) (cursor : option QueryDocumentSnapshot) (category : option jsstring)
    (w : World) :
  w_db w = true → 0 < pageSize →
  let q := paginated_constraints pageSize cursor category in
  let w1 := log_call (OpGetDocs q) (log_ui (ConsoleLog "Fetching images with constraints:") w) in
  getPaginatedImages pageSize cursor category w
    = if w_fault w (OpGetDocs q)
      then (Err (Wrapped "Failed to fetch images: " (GatewayError (OpGetDocs q))),
            log_ui (ConsoleError "Error fetching paginated images:"
                      (GatewayError (OpGetDocs q))) w1)
      else (Ok (PaginatedImagesResult.mk
                  (image_of_snapshot <$> runQuery q (w_images w))
                  (last (runQuery q (w_images w)))
                  (bool_decide (Z.of_nat (length (runQuery q (w_images w))) = pageSize))),
            w1).
Proof.
  intros Hdb Hpos. cbv zeta.
  unfold getPaginatedImages, getDocs, validatePositiveNumber. unfold_monad. simpl.
  rewrite Hdb. simpl. rewrite (proj2 (Z.leb_gt pageSize 0) Hpos). simpl.
  by destruct (w_fault w _).
Qed.

(** It returns only past them. *)
Lemma getPaginatedImages_returns
    (pageSize : Z) (cursor : option QueryDocumentSnapshot) (category : option jsstring)
    (w w' : World) (r : PaginatedImagesResult) :
  getPaginatedImages pageSize cursor category w = (Ok r, w') →
  let q := paginated_constraints pageSize cursor category in
  0 < pageSize
  ∧ r = PaginatedImagesResult.mk
          (image_of_snapshot <$> runQuery q (w_images w))
          (last (runQuery q (w_images w)))
          (bool_decide (Z.of_nat (length (runQuery q (w_images w))) = pageSize)).
Proof.
  intros H. cbv zeta. destruct (w_db w) eqn:Hdb.
  2:{ unfold getPaginatedImages in H. unfold_monad. simpl in H. by rewrite Hdb in H. }
  destruct (Z.leb_spec pageSize 0) as [Hle|Hpos].
  { unfold getPaginatedImages, validatePositiveNumber in H. unfold_monad. simpl in H.
    rewrite Hdb in H. simpl in H. rewrite (proj2 (Z.leb_le pageSize 0) Hle) in H.
    by simpl in H. }
  split; [done|]. rewrite getPaginatedImages_guarded in H by done.
  destruct (w_fault w _); by simplify_eq.
Qed.

(** C1. A successful [getPaginatedImages] returns [hasMore = true] exactly
    when the number of returned records equals [pageSize]; its cursor is the
    snapshot of the last returned record, and [null] when no record is
    returned; so, for a positive [pageSize], a page of zero records has
    [hasMore = false], after which [handleLoadMore] fetches nothing. *)
Theorem getPaginatedImages_hasMore_and_cursor
    (pageSize : Z) (cursor : option QueryDocumentSnapshot) (category : option jsstring)
    (w w' : World) (r : PaginatedImagesResult) :
  getPaginatedImages pageSize cursor category w = (Ok r, w') →
  (PaginatedImagesResult.hasMore r = true
     ↔ Z.of_nat (length (PaginatedImagesResult.images r)) = pageSize)
  ∧ (PaginatedImagesResult.images r = [] → PaginatedImagesResult.lastVisible r = None)
  ∧ (∀ lastImage, last (PaginatedImagesResult.images r) = Some lastImage →
       ∃ d, PaginatedImagesResult.lastVisible r = Some d ∧ image_of_snapshot d = lastImage)
  ∧ (0 < pageSize → PaginatedImagesResult.images r = [] →
       PaginatedImagesResult.hasMore r = false
       ∧ ∀ s v, hasMore s = PaginatedImagesResult.hasMore r → handleLoadMore s v = (s, v)).
Proof.
  intros H. apply getPaginatedImages_returns in H as [_ ->].
  cbn [PaginatedImagesResult.images
    PaginatedImagesResult.lastVisible PaginatedImagesResult.hasMore].
  set (docs := runQuery _ _). rewrite length_fmap.
  split; [apply bool_decide_eq_true|].
  split. { intros E. apply fmap_nil_inv in E. by rewrite E. }
  split.
  { intros lastImage E. rewrite fmap_last in E.
    destruct (last docs) as [d|]; simplify_eq/=. by exists d. }
  intros Hpos E. apply fmap_nil_inv in E. rewrite E. simpl.
  split.
  - apply bool_decide_eq_false. lia.
  - intros s v Hs. unfold handleLoadMore. rewrite Hs.
    rewrite bool_decide_eq_false_2 by lia. reflexivity.
Qed.

Lemma getPaginatedImages_hasMore_and_cursor_witness :
  getPaginatedImages 2 None None world3
    = (Ok first_page_of_two, (getPaginatedImages 2 None None world3).2)
  ∧ (PaginatedImagesResult.hasMore first_page_of_two = true
       ↔ Z.of_nat (length (PaginatedImagesResult.images first_page_of_two)) = 2)
  ∧ (∀ lastImage,
       last (PaginatedImagesResult.images first_page_of_two) = Some lastImage →
       ∃ d, PaginatedImagesResult.lastVisible first_page_of_two = Some d
            ∧ image_of_snapshot d = lastImage).
Proof.
  assert (getPaginatedImages 2 None None world3
    = (Ok first_page_of_two, (getPaginatedImages 2 None None world3).2)) as E.
  { rewrite (surjective_pairing (getPaginatedImages 2 None None world3)) at 1.
    f_equal; vm_compute; reflexivity. }
  split; [exact E|].
  destruct (getPaginatedImages_hasMore_and_cursor 2 None None world3 _ _ E)
    as (Hmore & _ & Hlast & _).
  split; [exact Hmore|exact Hlast].
Defined.

(** The scenario of the three-record collection read in pages of two: two
    records and more to come, then one record and the end. *)
Example three_records_in_pages_of_two :
  (getPaginatedImages 2 None None world3).1 = Ok first_page_of_two
  ∧ (getPaginatedImages 2 (PaginatedImagesResult.lastVisible first_page_of_two) None
       world3).1
    = Ok (PaginatedImagesResult.mk [image_c] (Some (mkSnap "c" doc_c)) false).
Proof. split; vm_compute; reflexivity. Qed.

(** * Optimistic reorder *)

Section splice.
Context {A : Type}.
Implicit Types (a : list A) (x : A) (i k : nat).

Lemma length_splice_out i a :
  (i < length a)%nat → length (splice_out i a) = (length a - 1)%nat.
Proof.
  intros Hi. unfold splice_out. rewrite length_app, length_take, length_drop. lia.
Qed.

Lemma lookup_splice_out i k a :
  splice_out i a !! k = a !! (if decide (k < i)%nat then k else S k).
Proof.
  unfold splice_out. destruct (decide (k < i)%nat) as [Hk|Hk].
  - destruct (decide (i ≤ length a)%nat).
    + rewrite lookup_app_l by (rewrite length_take; lia).
      by rewrite lookup_take_lt.
    + rewrite take_ge, drop_ge, app_nil_r by lia. done.
  - destruct (decide (i ≤ length a)%nat).
    + rewrite lookup_app_r by (rewrite length_take; lia).
      rewrite length_take, lookup_drop. f_equal. lia.
    + rewrite take_ge, drop_ge, app_nil_r by lia.
      rewrite !lookup_ge_None_2 by lia. done.
Qed.

Lemma length_splice_in i x a : length (splice_in i x a) = S (length a).
Proof.
  unfold splice_in. rewrite length_app, length_take. simpl. rewrite length_drop. lia.
Qed.

Lemma lookup_splice_in i x k a :
  (i ≤ length a)%nat →
  splice_in i x a !! k =
    if decide (k < i)%nat then a !! k
    else if decide (k = i) then Some x else a !! (k - 1)%nat.
Proof.
  intros Hi. unfold splice_in. destruct (decide (k < i)%nat) as [Hk|Hk].
  - rewrite lookup_app_l by (rewrite length_take; lia). by rewrite lookup_take_lt.
  - rewrite lookup_app_r by (rewrite length_take; lia). rewrite length_take.
    replace (i `min` length a)%nat with i by lia.
    destruct (decide (k = i)) as [->|Hne].
    + by rewrite Nat.sub_diag.
    + destruct (k - i)%nat as [|j] eqn:E; [lia|]. simpl.
      rewrite lookup_drop. f_equal. lia.
Qed.
End splice.

(** Moving a record: where each index of the result comes from. *)
Lemma lookup_move {A} (a : list A) (src dst k : nat) (removed : A) :
  a !! src = Some removed → (dst < length a)%nat → (k < length a)%nat →
  splice_in dst removed (splice_out src a) !! k = a !! origin src dst k.
Proof.
  intros Hsrc Hdst Hk. apply lookup_lt_Some in Hsrc as Hlt.
  rewrite lookup_splice_in by (rewrite length_splice_out; lia).
  unfold origin.
  repeat case_decide; rewrite ?lookup_splice_out; repeat case_decide;
    try lia; try done; by (f_equal; lia).
Qed.

(** The requests of a write-back: one per record, in order, whatever fails. *)
Lemma promise_all_position_update (imgs : list ImageMetadata) (w : World) :
  w_calls (promise_all (position_update <$> imgs) w).2
    = w_calls w ++ (position_write <$> imgs).
Proof.
  revert w. induction imgs as [|img imgs IH]; intros w; simpl.
  - by rewrite app_nil_r.
  - assert (w_calls (position_update img w).2 = w_calls w ++ [position_write img]) as Hc.
    { unfold position_update, updateImageDoc. unfold_monad. simpl.
      destruct (w_fault w _); simpl; [done|].
      destruct (w_images w !! _); done. }
    destruct (position_update img w) as [[?|e] w1] eqn:E; simpl in *.
    + rewrite IH, Hc, <- app_assoc. done.
    + rewrite IH, Hc, <- app_assoc. done.
Qed.

Lemma handleDragEnd_moves (src dst : nat) (removed : ImageMetadata)
    (s : GalleryState) (w : World) :
  isAdmin s = true → images s !! src = Some removed →
  ∃ s' w',
    handleDragEnd (mkDrop src (Some dst)) s w = Some (s', w')
    ∧ images s' = renumber (splice_in dst removed (splice_out src (images s)))
    ∧ w_calls w' = w_calls w ++ (position_write <$> images s')
    ∧ w_images w' = w_images (promise_all (position_update <$> images s') w).2.
Proof.
  intros Hadmin Hsrc. unfold handleDragEnd. simpl. rewrite Hadmin, Hsrc. simpl.
  set (updated := renumber _).
  pose proof (promise_all_position_update updated w) as Hc.
  destruct (promise_all _ w) as [[e|] w1] eqn:E; simpl in *;
    (eexists _, _; split; [reflexivity|]; simpl; fold updated; by rewrite E).
Qed.

(** C2. A reorder with valid indices leaves the local sequence equal to the
    old one with the record at [sourceIndex] moved to [destinationIndex]
    (index [k] of the result holds the old record of index
    [origin sourceIndex destinationIndex k]), and every record's [position]
    is its new zero-based index in the whole loaded sequence. *)
Theorem handleDragEnd_reorders_and_renumbers
    (sourceIndex destinationIndex : nat) (s : GalleryState) (w : World) :
  isAdmin s = true →
  (sourceIndex < length (images s))%nat →
  (destinationIndex < length (images s))%nat →
  ∃ s' w',
    handleDragEnd (mkDrop sourceIndex (Some destinationIndex)) s w = Some (s', w')
    ∧ length (images s') = length (images s)
    ∧ (∀ k, (k < length (images s))%nat →
         images s' !! k
           = ImageMetadata.with_position (Some (Z.of_nat k))
               <$> images s !! origin sourceIndex destinationIndex k)
    ∧ (∀ k image, images s' !! k = Some image →
         ImageMetadata.position image = Some (Z.of_nat k)).
Proof.
  intros Hadmin Hsrc Hdst.
  destruct (lookup_lt_is_Some_2 _ _ Hsrc) as [removed Hrem].
  destruct (handleDragEnd_moves sourceIndex destinationIndex removed s w Hadmin Hrem)
    as (s' & w' & Hrun & Himgs & _).
  exists s', w'. split; [done|]. rewrite Himgs. unfold renumber.
  split; [|split].
  - rewrite length_imap, length_splice_in, length_splice_out by done. lia.
  - intros k Hk. rewrite list_lookup_imap. by rewrite lookup_move.
  - intros k image. rewrite list_lookup_imap.
    destruct (_ !! k); intros; simplify_eq/=. done.
Qed.

Lemma handleDragEnd_reorders_and_renumbers_witness :
  isAdmin (loaded true) = true
  ∧ (0 < length (images (loaded true)))%nat
  ∧ (2 < length (images (loaded true)))%nat
  ∧ ∃ s' w',
      handleDragEnd (mkDrop 0 (Some 2%nat)) (loaded true) world3 = Some (s', w')
      ∧ length (images s') = length (images (loaded true))
      ∧ (∀ k, (k < length (images (loaded true)))%nat →
           images s' !! k
             = ImageMetadata.with_position (Some (Z.of_nat k))
                 <$> images (loaded true) !! origin 0 2 k)
      ∧ (∀ k image, images s' !! k = Some image →
           ImageMetadata.position image = Some (Z.of_nat k)).
Proof.
  split; [reflexivity|]. split; [simpl; lia|]. split; [simpl; lia|].
  apply (handleDragEnd_reorders_and_renumbers 0 2 (loaded true) world3);
    [reflexivity | simpl; lia | simpl; lia].
Defined.

(** Dragging the first of [a; b; c] to the end gives [b; c; a], numbered
    0, 1, 2. *)
Example handleDragEnd_first_to_last :
  (λ r, (λ i, (ImageMetadata.id i, ImageMetadata.position i)) <$> images r.1)
    <$> handleDragEnd (mkDrop 0 (Some 2%nat)) (loaded true) world3
  = Some [("b", Some 0); ("c", Some 1); ("a", Some 2)].
Proof. vm_compute. reflexivity. Qed.

(** Taking a record out and putting it back at the same index. *)
Lemma splice_in_out_same {A} (a : list A) (i : nat) (x : A) :
  a !! i = Some x → splice_in i x (splice_out i a) = a.
Proof.
  intros Hi. apply lookup_lt_Some in Hi as Hlt. unfold splice_in, splice_out.
  rewrite take_app_length' by (rewrite length_take; lia).
  rewrite drop_app_length' by (rewrite length_take; lia).
  by apply take_drop_middle.
Qed.

Lemma filter_position_write (imgs : list ImageMetadata) :
  filter (λ op, is_write op = true) (position_write <$> imgs) = position_write <$> imgs.
Proof.
  induction imgs as [|img imgs IH]; [done|]. rewrite fmap_cons.
  rewrite filter_cons_True by done. by rewrite IH.
Qed.

(** C3, as stated, fails: on the loaded gallery [a; b; c] an admin's drop of
    the first record on its own slot changes the local state and issues three
    remote writes. *)
Lemma handleDragEnd_same_index_not_noop :
  ∃ s' w',
    handleDragEnd (mkDrop 0 (Some 0%nat)) (loaded true) world3 = Some (s', w')
    ∧ s' ≠ loaded true
    ∧ writes w' = [OpUpdateImage "a" (mkPatch None None (Some 0));
                   OpUpdateImage "b" (mkPatch None None (Some 1));
                   OpUpdateImage "c" (mkPatch None None (Some 2))]
    ∧ writes world3 = [].
Proof.
  eexists _, _. split; [vm_compute; reflexivity|].
  split; [|split; vm_compute; reflexivity].
  intros E. apply (f_equal (λ s, ImageMetadata.position <$> images s)) in E.
  vm_compute in E. discriminate E.
Qed.

(** C3, amended. For an admin and a loaded index [i], [reorder(i, i)] keeps
    the records in their order but is no no-op: every [position] is set to
    its index and one remote update per loaded record is issued.  The handler
    returns at once, with the state and the world untouched, when the drop
    target is absent or the caller is no admin. *)
Theorem handleDragEnd_same_index
    (i : nat) (s : GalleryState) (w : World) :
  (i < length (images s))%nat →
  (isAdmin s = true →
     ∃ w',
       handleDragEnd (mkDrop i (Some i)) s w
         = Some (setImages (renumber (images s)) s, w')
       ∧ w_calls w' = w_calls w ++ (position_write <$> renumber (images s))
       ∧ length (writes w') = (length (writes w) + length (images s))%nat)
  ∧ (isAdmin s = false → handleDragEnd (mkDrop i (Some i)) s w = Some (s, w))
  ∧ handleDragEnd (mkDrop i None) s w = Some (s, w).
Proof.
  intros Hi. split; [|split].
  - intros Hadmin. destruct (lookup_lt_is_Some_2 _ _ Hi) as [removed Hrem].
    pose proof (promise_all_position_update (renumber (images s)) w) as Hc.
    unfold handleDragEnd. simpl. rewrite Hadmin, Hrem. simpl.
    rewrite (splice_in_out_same _ _ _ Hrem).
    assert (∀ w', w_calls w' = w_calls w ++ (position_write <$> renumber (images s)) →
      length (writes w') = (length (writes w) + length (images s))%nat) as Hlen.
    { intros w' E. unfold writes. rewrite E, filter_app, length_app. f_equal.
      rewrite filter_position_write, length_fmap. unfold renumber.
      by rewrite length_imap. }
    destruct (promise_all _ w) as [[e|] w1]; simpl in *; eexists; eauto.
  - intros Hadmin. unfold handleDragEnd. simpl. by rewrite Hadmin.
  - reflexivity.
Qed.

Lemma handleDragEnd_same_index_witness :
  (1 < length (images (loaded true)))%nat
  ∧ (isAdmin (loaded true) = true →
       ∃ w',
         handleDragEnd (mkDrop 1 (Some 1%nat)) (loaded true) world3
           = Some (setImages (renumber (images (loaded true))) (loaded true), w')
         ∧ w_calls w'
             = w_calls world3 ++ (position_write <$> renumber (images (loaded true)))
         ∧ length (writes w')
             = (length (writes world3) + length (images (loaded true)))%nat)
  ∧ (isAdmin (loaded true) = false →
       handleDragEnd (mkDrop 1 (Some 1%nat)) (loaded true) world3
         = Some (loaded true, world3))
  ∧ handleDragEnd (mkDrop 1 None) (loaded true) world3 = Some (loaded true, world3).
Proof.
  split; [simpl; lia|].
  apply (handleDragEnd_same_index 1 (loaded true) world3). simpl. lia.
Defined.

(** * Order of the fetched records *)

Lemma cmp_field_antisym f a b : cmp_field f b a = CompOpp (cmp_field f a b).
Proof.
  destruct f; simpl; [done| |].
  - apply String.compare_antisym.
  - destruct (d_position a), (d_position b); simpl; try done. apply Z.compare_antisym.
Qed.

Lemma cmp_dir_antisym dir c : cmp_dir dir (CompOpp c) = CompOpp (cmp_dir dir c).
Proof. by destruct dir. Qed.

Lemma lex_antisym c1 c2 : lex (CompOpp c1) (CompOpp c2) = CompOpp (lex c1 c2).
Proof. by destruct c1. Qed.

Lemma cmp_snapshots_antisym dir q a b :
  cmp_snapshots dir q b a = CompOpp (cmp_snapshots dir q a b).
Proof.
  revert dir. induction q as [|c q IH]; intros dir; simpl.
  - by rewrite String.compare_antisym, cmp_dir_antisym.
  - destruct c; try apply IH.
    by rewrite IH, cmp_field_antisym, cmp_dir_antisym, lex_antisym.
Qed.

#[global] Instance query_le_total q : Total (query_le q).
Proof.
  intros a b. unfold query_le. rewrite (cmp_snapshots_antisym asc q a b).
  destruct (cmp_snapshots asc q a b); simpl; auto.
Qed.

Section sorted_parts.
Context {A : Type} (R : relation A).

Lemma Sorted_drop_while (p : A → bool) (l : list A) :
  Sorted R l → Sorted R (drop_while p l).
Proof.
  induction 1 as [|x l Hs IH Hhd]; simpl; [constructor|].
  destruct (p x); [done|]. by constructor.
Qed.

Lemma HdRel_take x n (l : list A) : HdRel R x l → HdRel R x (take n l).
Proof. destruct 1, n; simpl; by constructor. Qed.

Lemma Sorted_take n (l : list A) : Sorted R l → Sorted R (take n l).
Proof.
  intros Hs. revert n. induction Hs as [|x l Hs IH Hhd]; intros [|n]; simpl;
    try constructor; auto using HdRel_take.
Qed.
End sorted_parts.

Lemma Sorted_apply_cursors q (cs : list QueryConstraint) l :
  Sorted (query_le q) l → Sorted (query_le q) (foldl (λ l c, apply_cursor q c l) l cs).
Proof.
  revert l. induction cs as [|c cs IH]; intros l Hl; simpl; [done|].
  apply IH. destruct c; simpl; auto using Sorted_drop_while, Sorted_take.
Qed.

(** The reference gateway answers in the order of the query. *)
Lemma runQuery_sorted q m : Sorted (query_le q) (runQuery q m).
Proof. unfold runQuery. apply Sorted_apply_cursors, Sorted_merge_sort, _. Qed.

Lemma paginated_query_le pageSize cursor category a b :
  query_le (paginated_constraints pageSize cursor category) a b →
  createdAt_desc (image_of_snapshot a) (image_of_snapshot b).
Proof.
  unfold query_le, createdAt_desc, String.le, String.leb. simpl.
  rewrite (String.compare_antisym (d_createdAt (snap_data b))).
  assert (∀ c rest, lex (CompOpp c) rest ≠ Gt → Is_true
            match CompOpp c with Gt => false | _ => true end) as Hlex.
  { intros c rest. destruct c; simpl; try done. }
  unfold paginated_constraints.
  destruct category as [c|]; [destruct (bool_decide (c = []))|];
    destruct cursor; simpl; apply Hlex.
Qed.

#[global] Instance createdAt_desc_trans : Transitive createdAt_desc.
Proof.
  intros a b c Hab Hbc. unfold createdAt_desc in *. by etrans.
Qed.

(** C4, as stated, fails, on the page as fetched and after a reorder: the
    page of the two records created at the same instant comes with positions
    1, 0; and after an admin dragged the first of [a; b; c] to the end, the
    older [c] precedes the newer [a]. *)
Lemma visible_sequence_not_createdAt_then_position :
  (∃ r, (getPaginatedImages PAGE_SIZE None None twin_world).1 = Ok r
        ∧ ImageMetadata.position <$> PaginatedImagesResult.images r = [Some 1; Some 0]
        ∧ ¬ Sorted (λ a b, createdAt_desc_then_position a b = true)
              (PaginatedImagesResult.images r))
  ∧ (∃ s' w', handleDragEnd (mkDrop 0 (Some 2%nat)) (loaded true) world3 = Some (s', w')
        ∧ ImageMetadata.id <$> images s' = ["b"; "c"; "a"]
        ∧ ¬ Sorted (λ a b, createdAt_desc_then_position a b = true) (images s')).
Proof.
  split.
  - eexists. split; [vm_compute; reflexivity|]. split; [vm_compute; reflexivity|].
    intros Hs. apply Sorted_inv in Hs as [_ Hhd]. apply HdRel_inv in Hhd.
    vm_compute in Hhd. discriminate Hhd.
  - eexists _, _. split; [vm_compute; reflexivity|]. split; [vm_compute; reflexivity|].
    intros Hs. apply Sorted_inv in Hs as [Hs _]. apply Sorted_inv in Hs as [_ Hhd].
    apply HdRel_inv in Hhd. vm_compute in Hhd. discriminate Hhd.
Qed.

(** C4, amended. The paginated query has one ordering constraint,
    [createdAt] descending, and a fetched page is in that order, newest
    first; [position] is no sort key of it and no condition for a record to
    be fetched.  The earlier unpaginated loader ordered by [position]
    ascending first and [createdAt] descending second. *)
Theorem getPaginatedImages_newest_first
    (pageSize : Z) (cursor : option QueryDocumentSnapshot) (category : option jsstring)
    (w w' : World) (r : PaginatedImagesResult) :
  getPaginatedImages pageSize cursor category w = (Ok r, w') →
  filter (λ c, is_orderBy c = true) (paginated_constraints pageSize cursor category)
    = [orderBy fld_createdAt desc]
  ∧ StronglySorted createdAt_desc (PaginatedImagesResult.images r)
  ∧ (∀ d d', d_labels (snap_data d) = d_labels (snap_data d') →
       forallb (matches d) (paginated_constraints pageSize cursor category)
         = forallb (matches d') (paginated_constraints pageSize cursor category))
  ∧ filter (λ c, is_orderBy c = true) (loadImages_constraints category)
    = [orderBy fld_position asc; orderBy fld_createdAt desc].
Proof.
  intros H. split; [|split; [|split]].
  - unfold paginated_constraints.
    destruct category as [c|]; [destruct (bool_decide (c = []))|]; by destruct cursor.
  - apply getPaginatedImages_returns in H as [_ ->]. simpl.
    apply Sorted_StronglySorted; [apply _|].
    eapply Sorted_fmap; [|apply runQuery_sorted].
    apply paginated_query_le.
  - intros d d' Hlabels. unfold paginated_constraints.
    destruct category as [c|]; [destruct (bool_decide (c = []))|];
      destruct cursor; simpl; by rewrite ?Hlabels.
  - unfold loadImages_constraints.
    destruct category as [c|]; [destruct (bool_decide (c = []))|]; done.
Qed.

Lemma getPaginatedImages_newest_first_witness :
  getPaginatedImages 2 None None world3
    = (Ok first_page_of_two, (getPaginatedImages 2 None None world3).2)
  ∧ StronglySorted createdAt_desc (PaginatedImagesResult.images first_page_of_two).
Proof.
  assert (getPaginatedImages 2 None None world3
    = (Ok first_page_of_two, (getPaginatedImages 2 None None world3).2)) as E.
  { rewrite (surjective_pairing (getPaginatedImages 2 None None world3)) at 1.
    f_equal; vm_compute; reflexivity. }
  split; [exact E|].
  exact (proj1 (proj2 (getPaginatedImages_newest_first 2 None None world3 _ _ E))).
Defined.

(** * Authorization *)

#[global] Instance same_backend_refl : Reflexive same_backend.
Proof. by intros w. Qed.

#[global] Instance same_backend_trans : Transitive same_backend.
Proof.
  intros w1 w2 w3 (? & ? & ? & ? & ?) (? & ? & ? & ? & ?).
  repeat split; congruence.
Qed.

Lemma getPaginatedImages_writes pageSize cursor category w :
  writes (getPaginatedImages pageSize cursor category w).2 = writes w.
Proof.
  unfold getPaginatedImages, getDocs, validatePositiveNumber, writes.
  unfold_monad. simpl.
  destruct (w_db w); simpl; [|done].
  destruct (pageSize <=? 0); simpl; [done|].
  destruct (w_fault w _); simpl; rewrite filter_app; simpl; by rewrite app_nil_r.
Qed.

Lemma getPaginatedImages_backend pageSize cursor category w :
  same_backend w (getPaginatedImages pageSize cursor category w).2.
Proof.
  unfold getPaginatedImages, getDocs, validatePositiveNumber, same_backend.
  unfold_monad. simpl.
  destruct (w_db w) eqn:Hdb; simpl; [|done].
  destruct (pageSize <=? 0); simpl; [done|].
  destruct (w_fault w _); simpl; done.
Qed.

Lemma checkAdminStatus_backend uid w :
  same_backend w (checkAdminStatus uid w).2
  ∧ writes (checkAdminStatus uid w).2 = writes w.
Proof.
  unfold checkAdminStatus, same_backend, writes. unfold_monad. simpl.
  destruct (w_db w) eqn:Hdb; simpl; [|done].
  destruct (w_fault w _); simpl; rewrite filter_app, app_nil_r; done.
Qed.

Lemma updateImageDoc_backend id p w :
  same_backend w (updateImageDoc id p w).2.
Proof.
  unfold updateImageDoc, same_backend. unfold_monad. simpl.
  destruct (w_fault w _); simpl; [done|].
  destruct (w_images w !! id); done.
Qed.

Lemma promise_all_position_update_backend (imgs : list ImageMetadata) (w : World) :
  same_backend w (promise_all (position_update <$> imgs) w).2.
Proof.
  revert w. induction imgs as [|img imgs IH]; intros w; [done|]. simpl.
  pose proof (updateImageDoc_backend (ImageMetadata.id img)
    (mkPatch None None (ImageMetadata.position img)) w) as H1.
  fold (position_update img) in H1.
  destruct (position_update img w) as [[?|e] w1]; simpl in *; by etrans.
Qed.

Lemma updateSiteSettings_backend now settings w :
  same_backend w (updateSiteSettings now settings w).2.
Proof.
  unfold updateSiteSettings, same_backend. unfold_monad. simpl.
  destruct (w_db w) eqn:Hdb; simpl; [|done].
  destruct (w_fault w OpGetSettings); simpl; [done|].
  destruct (w_settings w); simpl.
  - destruct (w_fault w OpMergeSettings); done.
  - destruct (w_fault w OpSetSettings); simpl; [done|].
    destruct (w_fault w OpMergeSettings); done.
Qed.

Lemma deleteImage_step_backend imageId w :
  same_backend w (deleteImage_step imageId w).2.
Proof.
  unfold deleteImage_step, getImageDoc, deleteObject, deleteImageDoc, same_backend.
  unfold_monad. simpl.
  destruct (w_fault w (OpGetImage imageId)); simpl; [done|].
  destruct (w_images w !! imageId) as [d|]; simpl; [|done].
  destruct (w_fault w (OpDeleteObject _)); simpl; [done|].
  destruct (bool_decide _); simpl; [|done].
  destruct (w_fault w (OpDeleteImage _)); done.
Qed.

Lemma deleteImages_loop_backend imageIds w :
  same_backend w (deleteImages_loop imageIds w).2.
Proof.
  revert w. induction imageIds as [|x rest IH]; intros w; simpl; [done|].
  unfold bind. pose proof (deleteImage_step_backend x w) as H1.
  destruct (deleteImage_step x w) as [[[]|e] w1]; simpl in *; [|done].
  by etrans.
Qed.

Lemma deleteImages_backend imageIds w :
  same_backend w (deleteImages imageIds w).2.
Proof.
  pose proof (deleteImages_loop_backend imageIds w) as H1.
  unfold deleteImages. unfold_monad. simpl.
  destruct (negb (w_db w) || negb (w_storage w)); [done|].
  destruct (deleteImages_loop imageIds w) as [[[]|e] w1]; done.
Qed.

(** No handler touches the client's initialisation, the gateway's faults,
    the users collection or the session. *)
Lemma fire_backend (a : Action) (s s' : GalleryState) (w w' : World) :
  fire a s w = Some (s', w') → same_backend w w'.
Proof.
  intros Hfire. destruct a; simpl in Hfire.
  - by simplify_eq.
  - unfold handleLoadMore in Hfire.
    destruct (negb (hasMore s) || loadingMore s); [by simplify_eq|].
    pose proof (getPaginatedImages_backend PAGE_SIZE (lastVisible (setLoadingMore true s))
      (selectedCategory (setLoadingMore true s)) w) as H1.
    destruct (getPaginatedImages _ _ _ w) as [[r|e] w1]; by simplify_eq.
  - unfold handleContact in Hfire. by simplify_eq.
  - unfold handleDragEnd in Hfire.
    destruct (destination result); [|by simplify_eq].
    destruct (negb (isAdmin s)); [by simplify_eq|].
    destruct (images s !! source_index result); [|done]. simpl in Hfire.
    match type of Hfire with
    | context [promise_all (position_update <$> ?l) w] =>
        pose proof (promise_all_position_update_backend l w) as H1
    end.
    destruct (promise_all _ w) as [[e|] w1]; by simplify_eq.
  - unfold toggleImageSelection in Hfire. destruct (negb (isAdmin s)); [by simplify_eq|].
    simpl in Hfire. destruct (bool_decide _); by simplify_eq.
  - unfold handleSetAsBackground in Hfire.
    pose proof (updateSiteSettings_backend now
      (mkSettings (Some imageUrl) None None None) w) as H1.
    destruct (updateSiteSettings _ _ w) as [[?|e] w1]; by simplify_eq.
  - by simplify_eq.
  - destruct (editingImage s) as [e|]; [|by simplify_eq].
    unfold toggleImageSelection in Hfire. simpl in Hfire.
    destruct (negb (isAdmin s)); [by simplify_eq|].
    destruct (bool_decide _); by simplify_eq.
  - assert (same_backend w (handleUpdate imageId description labels s w).2) as H1.
    { unfold handleUpdate, updateImageMetadata.
      pose proof (updateImageDoc_backend imageId
        (mkPatch (Some description) (Some (parse_labels labels)) None) w) as H1.
      unfold_monad. simpl. destruct (w_db w) eqn:Hdb; simpl; [|done].
      destruct (updateImageDoc _ _ w) as [[?|e] w1]; done. }
    destruct (handleUpdate imageId description labels s w) as [s1 w1]. simpl in *.
    unfold toggleImageSelection in Hfire. destruct (negb (isAdmin s1)); [by simplify_eq|].
    simpl in Hfire. destruct (bool_decide _); by simplify_eq.
  - unfold handleDelete in Hfire. destruct (negb confirmed); [by simplify_eq|].
    pose proof (deleteImages_backend [imageId] w) as H1.
    destruct (deleteImages _ w) as [[?|e] w1]; by simplify_eq.
  - unfold handleBulkDelete in Hfire.
    destruct (bool_decide (selectedImages s = [])); [by simplify_eq|].
    destruct (negb confirmed); [by simplify_eq|].
    pose proof (deleteImages_backend (selectedImages s) w) as H1.
    destruct (deleteImages _ w) as [[?|e] w1]; by simplify_eq.
Qed.

(** The answer of the admin check depends on these alone. *)
Lemma checkAdmin_backend (s : GalleryState) (w w' : World) :
  same_backend w w' → isAdmin (checkAdmin s w').1 = isAdmin (checkAdmin s w).1.
Proof.
  intros (Hdb & _ & Hf & Hu & Hs). unfold checkAdmin, checkAdminStatus.
  unfold_monad. simpl. rewrite Hs, Hdb.
  destruct (w_session w) as [u|]; [|done]. destruct (w_db w); simpl; [|done].
  rewrite Hf. destruct (w_fault w _); simpl; [done|]. by rewrite Hu.
Qed.

(** A freshly mounted gallery. *)
Lemma mount_state (w : World) :
  isAdmin (mount w).1 = isAdmin (checkAdmin initial_state w).1
  ∧ editingImage (mount w).1 = None
  ∧ selectedImages (mount w).1 = []
  ∧ isSelectionMode (mount w).1 = false
  ∧ selectedCategory (mount w).1 = None.
Proof.
  unfold mount, loadInitialImages.
  assert (∀ w, ∃ b, (checkAdmin initial_state w).1 = setIsAdmin b initial_state) as H.
  { intros w0. unfold checkAdmin. destruct (w_session w0); [|by exists false].
    destruct (checkAdminStatus _ w0) as [[b|e] w1]; [by exists b|by exists false]. }
  destruct (H w) as [b ->]. simpl.
  destruct (getPaginatedImages _ _ _ _) as [[r|e] w1]; done.
Qed.

Lemma mount_world (w : World) :
  same_backend w (mount w).2 ∧ writes (mount w).2 = writes w.
Proof.
  unfold mount.
  assert (same_backend w (checkAdmin initial_state w).2
          ∧ writes (checkAdmin initial_state w).2 = writes w) as [H1 H2].
  { unfold checkAdmin. destruct (w_session w) as [u|]; [|done].
    destruct (checkAdminStatus_backend u w) as [? ?].
    destruct (checkAdminStatus u w) as [[b|e] w1]; done. }
  destruct (checkAdmin initial_state w) as [s1 w1]. simpl in *.
  unfold loadInitialImages.
  pose proof (getPaginatedImages_backend PAGE_SIZE None
    (selectedCategory (setLoading true s1)) w1) as H3.
  pose proof (getPaginatedImages_writes PAGE_SIZE None
    (selectedCategory (setLoading true s1)) w1) as H4.
  destruct (getPaginatedImages _ _ _ w1) as [[r|e] w2]; simpl in *.
  - split; [by etrans|congruence].
  - split; [by etrans|]. unfold writes in *. simpl. congruence.
Qed.

Lemma handleLoadMore_frame s w :
  writes (handleLoadMore s w).2 = writes w
  ∧ isAdmin (handleLoadMore s w).1 = isAdmin s
  ∧ editingImage (handleLoadMore s w).1 = editingImage s.
Proof.
  unfold handleLoadMore. destruct (negb (hasMore s) || loadingMore s); [done|].
  pose proof (getPaginatedImages_writes PAGE_SIZE (lastVisible (setLoadingMore true s))
    (selectedCategory (setLoadingMore true s)) w) as Hw.
  destruct (getPaginatedImages _ _ _ w) as [[r|e] w1]; simpl in *; done.
Qed.

(** What the render offers to a visitor who is no admin and has no edit
    form open: retry, load more, contact. *)
Lemma offered_to_visitor (a : Action) (s : GalleryState) :
  isAdmin s = false → editingImage s = None → offered s a = true →
  a = ActRetry ∨ a = ActLoadMore ∨ ∃ image, a = ActContact image.
Proof.
  intros Hadmin Hedit Hoff. unfold offered in Hoff. rewrite Hadmin, Hedit in Hoff.
  destruct (loading s); [done|].
  destruct (error s); [destruct a; try done; by left|].
  destruct (bool_decide (images s = [])); [done|].
  destruct a; simpl in Hoff; try done; [by right; left|right; right; by eexists].
Qed.

(** One step of such a visitor: nothing is written, and afterwards the
    visitor still has no edit form open and is admin only if a reload made
    the admin check answer so. *)
Lemma non_admin_step a s w s' w' :
  isAdmin s = false → editingImage s = None →
  offered s a = true → step a s w = Some (s', w') →
  writes w' = writes w ∧ editingImage s' = None ∧ same_backend w w'
  ∧ (isAdmin s' = true → isAdmin (checkAdmin initial_state w).1 = true).
Proof.
  intros Hadmin Hedit Hoff Hstep.
  assert (∃ s1 w1, fire a s w = Some (s1, w1) ∧ writes w1 = writes w
                   ∧ isAdmin s1 = false ∧ editingImage s1 = None)
    as (s1 & w1 & Hfire & Hw & Ha & He).
  { destruct (offered_to_visitor a s Hadmin Hedit Hoff) as [->|[->|[image ->]]]; simpl.
    - eexists _, _. split; [done|]. unfold writes. simpl. done.
    - destruct (handleLoadMore_frame s w) as (? & ? & ?).
      eexists _, _. split; [by rewrite <- surjective_pairing|]. split; [done|].
      split; congruence.
    - eexists _, _. split; [done|]. done. }
  pose proof (fire_backend a s s1 w w1 Hfire) as Hback.
  unfold step in Hstep. rewrite Hfire in Hstep.
  destruct (reloaded w w1).
  - assert (s' = (mount w1).1 ∧ w' = (mount w1).2) as [-> ->].
    { injection Hstep as E. by rewrite E. }
    destruct (mount_state w1) as (Hm & Hme & _). destruct (mount_world w1) as [Hmb Hmw].
    split; [congruence|]. split; [done|]. split; [by etrans|].
    rewrite Hm, (checkAdmin_backend _ _ _ Hback). done.
  - simplify_eq. split; [done|]. split; [done|]. split; [done|]. congruence.
Qed.

(** The handlers behind the admin's controls carry no test of their own:
    the gate is in the render.  [handleDelete], were it called for a visitor,
    would delete the object and the document and drop the record from the
    local list; no control of a visitor's page calls it. *)
Example handleDelete_not_gated :
  isAdmin (loaded false) = false
  ∧ writes (handleDelete true "a" (loaded false) world3).2
      = [OpDeleteObject "url-a"; OpDeleteImage "a"]
  ∧ w_images (handleDelete true "a" (loaded false) world3).2 !! "a" = None
  ∧ w_images world3 !! "a" = Some doc_a
  ∧ ImageMetadata.id <$> images (handleDelete true "a" (loaded false) world3).1
      = ["b"; "c"]
  ∧ (∀ confirmed, offered (loaded false) (ActDelete confirmed "a") = false).
Proof. repeat split; vm_compute; reflexivity. Qed.

(** What the handlers of a control keep. *)
Lemma toggleImageSelection_keeps (imageId : string) (s : GalleryState) (w : World) :
  isAdmin (toggleImageSelection imageId s w).1 = isAdmin s
  ∧ selectedCategory (toggleImageSelection imageId s w).1 = selectedCategory s
  ∧ editingImage (toggleImageSelection imageId s w).1 = editingImage s
  ∧ images (toggleImageSelection imageId s w).1 = images s
  ∧ (toggleImageSelection imageId s w).2 = w.
Proof.
  unfold toggleImageSelection. destruct (negb (isAdmin s)); [done|]. simpl.
  destruct (bool_decide _); [|done]. by destruct (bool_decide _).
Qed.

Lemma fire_keeps_identity (a : Action) (s s' : GalleryState) (w w' : World) :
  fire a s w = Some (s', w') →
  isAdmin s' = isAdmin s ∧ selectedCategory s' = selectedCategory s.
Proof.
  intros Hfire. destruct a; simpl in Hfire.
  - by simplify_eq.
  - unfold handleLoadMore in Hfire.
    destruct (negb (hasMore s) || loadingMore s); [by simplify_eq|].
    destruct (getPaginatedImages _ _ _ w) as [[r|e] w1]; by simplify_eq.
  - unfold handleContact in Hfire. by simplify_eq.
  - unfold handleDragEnd in Hfire.
    destruct (destination result); [|by simplify_eq].
    destruct (negb (isAdmin s)); [by simplify_eq|].
    destruct (images s !! source_index result); [|done]. simpl in Hfire.
    destruct (promise_all _ w) as [[e|] w1]; by simplify_eq.
  - destruct (toggleImageSelection_keeps imageId s w) as (? & ? & _).
    destruct (toggleImageSelection imageId s w). by simplify_eq.
  - unfold handleSetAsBackground in Hfire.
    destruct (updateSiteSettings _ _ w) as [[?|e] w1]; by simplify_eq.
  - by simplify_eq.
  - destruct (editingImage s) as [e|]; [|by simplify_eq].
    destruct (toggleImageSelection_keeps e (setEditingImage None s) w) as (? & ? & _).
    destruct (toggleImageSelection e _ w). by simplify_eq.
  - assert (isAdmin (handleUpdate imageId description labels s w).1 = isAdmin s
            ∧ selectedCategory (handleUpdate imageId description labels s w).1
                = selectedCategory s) as [H1 H2].
    { unfold handleUpdate. destruct (updateImageMetadata _ _ w) as [[?|e] w1]; done. }
    destruct (handleUpdate imageId description labels s w) as [s1 w1]. simpl in *.
    destruct (toggleImageSelection_keeps imageId s1 w1) as (? & ? & _).
    assert (s' = (toggleImageSelection imageId s1 w1).1) as ->.
    { injection Hfire as E. by rewrite E. }
    split; congruence.
  - unfold handleDelete in Hfire. destruct (negb confirmed); [by simplify_eq|].
    destruct (deleteImages _ w) as [[?|e] w1]; by simplify_eq.
  - unfold handleBulkDelete in Hfire.
    destruct (bool_decide (selectedImages s = [])); [by simplify_eq|].
    destruct (negb confirmed); [by simplify_eq|].
    destruct (deleteImages _ w) as [[?|e] w1]; by simplify_eq.
Qed.

(** A visitor never has an edit form open: the form opens on the admin's
    Edit control, no handler changes [isAdmin], and a reload closes the
    form. *)
Lemma step_visitor_not_editing (a : Action) (s s' : GalleryState) (w w' : World) :
  (isAdmin s = false → editingImage s = None) →
  offered s a = true → step a s w = Some (s', w') →
  isAdmin s' = false → editingImage s' = None.
Proof.
  intros Hinv Hoff Hstep Hadmin'.
  destruct (isAdmin s) eqn:Hadmin.
  - unfold step in Hstep.
    destruct (fire a s w) as [[s1 w1]|] eqn:Hfire; [|done].
    destruct (reloaded w w1).
    + assert (s' = (mount w1).1) as -> by (injection Hstep as E; by rewrite E).
      by destruct (mount_state w1) as (_ & ? & _).
    + simplify_eq. destruct (fire_keeps_identity a s s' w w' Hfire) as [Ha _]. congruence.
  - by destruct (non_admin_step a s w s' w' Hadmin (Hinv eq_refl) Hoff Hstep) as (_ & ? & _).
Qed.

Lemma run_visitor_not_editing (acts : list Action) (s s' : GalleryState) (w w' : World) :
  (isAdmin s = false → editingImage s = None) →
  run acts s w = Some (s', w') →
  isAdmin s' = false → editingImage s' = None.
Proof.
  revert s w. induction acts as [|a acts IH]; intros s w Hinv Hrun; simpl in Hrun.
  - by simplify_eq.
  - destruct (offered s a) eqn:Hoff; [|done].
    destruct (step a s w) as [[s1 w1]|] eqn:Hstep; [|done].
    eapply IH; [|exact Hrun]. by eapply step_visitor_not_editing.
Qed.

(** C5. A caller for whom the admin check returned false causes no remote
    write and no change of the loaded records through a mutating operation.
    [reorder] and the selection toggle test [isAdmin] themselves and return
    with the state and the world untouched.  The controls of the other
    mutating operations (update, delete, bulk delete, set background) are not
    rendered for such a caller, who never has an edit form open: the render
    offers retry, load-more and contact only, and none of them writes.  So
    while the admin check answers false, no session issues a remote write,
    also across the reloads of the page. *)
Theorem non_admin_causes_no_write (s : GalleryState) (w : World) :
  isAdmin s = false → editingImage s = None →
  (∀ result, handleDragEnd result s w = Some (s, w))
  ∧ (∀ imageId, toggleImageSelection imageId s w = (s, w))
  ∧ (∀ a, offered s a = true →
       a = ActRetry ∨ a = ActLoadMore ∨ ∃ image, a = ActContact image)
  ∧ (∀ a s' w', offered s a = true → step a s w = Some (s', w') →
       writes w' = writes w ∧ editingImage s' = None)
  ∧ (isAdmin (checkAdmin initial_state w).1 = false →
     ∀ acts s' w', run acts s w = Some (s', w') →
       writes w' = writes w ∧ isAdmin s' = false ∧ editingImage s' = None)
  ∧ (∀ acts w0 s' w', run acts (mount w0).1 (mount w0).2 = Some (s', w') →
       isAdmin s' = false → editingImage s' = None).
Proof.
  intros Hadmin Hedit. split; [|split; [|split; [|split; [|split]]]].
  - intros result. unfold handleDragEnd. rewrite Hadmin.
    by destruct (destination result).
  - intros imageId. unfold toggleImageSelection. by rewrite Hadmin.
  - intros a. by apply offered_to_visitor.
  - intros a s' w' Hoff Hstep.
    by destruct (non_admin_step a s w s' w' Hadmin Hedit Hoff Hstep) as (? & ? & _).
  - intros Hcheck acts. revert s w Hadmin Hedit Hcheck.
    induction acts as [|a acts IH]; intros s w Hadmin Hedit Hcheck s' w' Hrun;
      simpl in Hrun.
    + by simplify_eq.
    + destruct (offered s a) eqn:Hoff; [|done].
      destruct (step a s w) as [[s1 w1]|] eqn:Hstep; [|done].
      destruct (non_admin_step a s w s1 w1 Hadmin Hedit Hoff Hstep)
        as (Hw & He & Hback & Ha).
      assert (isAdmin s1 = false) as Ha1.
      { destruct (isAdmin s1); [|done]. rewrite Ha in Hcheck; done. }
      destruct (IH s1 w1 Ha1 He) with (s' := s') (w' := w') as (? & ? & ?); [|done|].
      { by rewrite (checkAdmin_backend _ _ _ Hback). }
      split; [congruence|done].
  - intros acts w0 s' w' Hrun. eapply run_visitor_not_editing; [|exact Hrun].
    intros _. by destruct (mount_state w0) as (_ & ? & _).
Qed.

Lemma non_admin_causes_no_write_witness :
  isAdmin (loaded false) = false ∧ editingImage (loaded false) = None
  ∧ (∀ result, handleDragEnd result (loaded false) world3 = Some (loaded false, world3))
  ∧ (∀ imageId, toggleImageSelection imageId (loaded false) world3 = (loaded false, world3))
  ∧ (∀ a s' w', offered (loaded false) a = true → step a (loaded false) world3 = Some (s', w') →
       writes w' = writes world3 ∧ editingImage s' = None).
Proof.
  split; [reflexivity|]. split; [reflexivity|].
  destruct (non_admin_causes_no_write (loaded false) world3 eq_refl eq_refl)
    as (Hdrag & Htoggle & _ & Hstep & _).
  split; [exact Hdrag|]. split; [exact Htoggle|exact Hstep].
Defined.

(** A visitor's session on the loaded gallery: contact about [a], then
    about [c]. *)
Example visitor_session :
  (λ r, (writes r.2, w_ui r.2))
    <$> run [ActContact image_a; ActContact image_c] (loaded false) world3
  = Some ([], [MailTo "a"; MailTo "c"]).
Proof. vm_compute. reflexivity. Qed.

(** A visitor's retry on a gallery whose load had failed: the page loads
    anew and shows the three records; nothing is written. *)
Example visitor_retry :
  (λ r, (ImageMetadata.id <$> images r.1, error r.1, isAdmin r.1, writes r.2))
    <$> run [ActRetry]
          (setError (Some "Failed to load images. Please try again later.")
             (setImages [] (loaded false))) world3
  = Some (["a"; "b"; "c"], None, false, []).
Proof. vm_compute. reflexivity. Qed.

(** * Labels of [updateMetadata] *)

Lemma split_not_nil sep s : split sep s ≠ [].
Proof.
  destruct s as [|c s]; simpl; [done|].
  destruct (N.eqb c sep); [done|]. by destruct (split sep s).
Qed.

Lemma join_cons_cons sep (x y : jsstring) (l : list jsstring) :
  join sep (x :: y :: l) = x ++ sep ++ join sep (y :: l).
Proof. reflexivity. Qed.

Lemma join_split s : join [comma] (split comma s) = s.
Proof.
  induction s as [|c s IH]; [done|]. simpl.
  pose proof (split_not_nil comma s) as Hne.
  destruct (N.eqb_spec c comma) as [->|Hc].
  - destruct (split comma s) as [|p ps]; [done|].
    by rewrite join_cons_cons, IH.
  - destruct (split comma s) as [|p ps]; [done|].
    destruct ps as [|p' ps]; [simpl in *; by rewrite IH|].
    rewrite join_cons_cons in *. by rewrite <- IH.
Qed.

Lemma comma_free_split s : Forall (λ p, comma_free p = true) (split comma s).
Proof.
  induction s as [|c s IH]; simpl; [by repeat constructor|].
  destruct (N.eqb c comma) eqn:Hc; [by constructor|].
  destruct (split comma s) as [|p ps]; [repeat constructor; simpl; by rewrite Hc|].
  inv IH. constructor; [|done]. simpl. rewrite Hc. done.
Qed.

Lemma split_entries s : entries_of s (split comma s).
Proof. split; [apply join_split|]. split; [apply split_not_nil|apply comma_free_split]. Qed.

Lemma trim_start_spec s :
  ∃ l, s = l ++ trim_start s ∧ all_space l = true
       ∧ starts_with_space (trim_start s) = false.
Proof.
  induction s as [|c s (l & Es & Hl & Hs)]; [by exists []|]. simpl.
  destruct (is_js_space c) eqn:Hc.
  - exists (c :: l). simpl. rewrite <- Es, Hc, Hl. done.
  - exists []. simpl. by rewrite Hc.
Qed.

Lemma trim_end_spec t :
  ∃ r, t = trim_end t ++ r ∧ all_space r = true
       ∧ ends_with_space (trim_end t) = false.
Proof.
  induction t as [|c t (r & Et & Hr & He)]; [by exists []|]. simpl.
  destruct (is_js_space c) eqn:Hc; simpl.
  - destruct (trim_end t) as [|c' u] eqn:Hu; simpl in *.
    + exists (c :: r). simpl. rewrite Hc, Hr. by rewrite <- Et.
    + exists r. by rewrite <- Et.
  - exists r. rewrite <- Et. split; [done|]. split; [done|].
    destruct (trim_end t); [done|]. done.
Qed.

Lemma trim_end_starts t :
  starts_with_space t = false → starts_with_space (trim_end t) = false.
Proof. destruct t as [|c t]; simpl; [done|]. intros Hc. rewrite Hc. simpl. exact Hc. Qed.

(** [trim] computes the trimmed string. *)
Lemma trim_trimmed s : trimmed_of s (trim s).
Proof.
  destruct (trim_start_spec s) as (l & Es & Hl & Hs).
  destruct (trim_end_spec (trim_start s)) as (r & Et & Hr & He).
  exists l, r. unfold trim. rewrite <- Et.
  repeat split; auto using trim_end_starts.
Qed.

(** The request [handleUpdate] issues carries the parsed labels. *)
Lemma handleUpdate_calls imageId description labels s w :
  w_db w = true →
  w_calls (handleUpdate imageId description labels s w).2
    = w_calls w ++ [OpUpdateImage imageId
                      (mkPatch (Some description) (Some (parse_labels labels)) None)].
Proof.
  intros Hdb. unfold handleUpdate, updateImageMetadata, updateImageDoc.
  unfold_monad. simpl. rewrite Hdb. simpl.
  destruct (w_fault w _); simpl; [done|].
  destruct (w_images w !! imageId); done.
Qed.

(** C6. The labels [handleUpdate] persists are the entries of the
    comma-separated input, each trimmed, without the empty ones, and
    otherwise as they come, repeated entries included; for ["a, b ,  , b"]
    they are [["a"; "b"; "b"]].  The input is any JavaScript string, and
    trimming removes all the white space of [String.prototype.trim]. *)
Theorem handleUpdate_persists_split_trimmed_labels
    (imageId description : string) (labels : jsstring) (s : GalleryState) (w : World)
    (d : DocumentData) :
  w_db w = true →
  w_images w !! imageId = Some d →
  w_fault w (OpUpdateImage imageId
               (mkPatch (Some description) (Some (parse_labels labels)) None)) = false →
  d_labels <$> w_images (handleUpdate imageId description labels s w).2 !! imageId
    = Some (parse_labels labels)
  ∧ (∃ pieces trimmed,
       entries_of labels pieces
       ∧ Forall2 trimmed_of pieces trimmed
       ∧ parse_labels labels = filter (λ l, l ≠ []) trimmed)
  ∧ parse_labels (js "a, b ,  , b") = [js "a"; js "b"; js "b"].
Proof.
  intros Hdb Hdoc Hfault. split; [|split].
  - unfold handleUpdate, updateImageMetadata, updateImageDoc.
    unfold_monad. simpl. rewrite Hdb. simpl. rewrite Hfault. simpl.
    rewrite Hdoc. simpl. by rewrite lookup_insert_eq.
  - exists (split comma labels), (trim <$> split comma labels).
    split; [apply split_entries|]. split.
    + apply Forall2_fmap_r, Forall2_same_length_lookup_2; [done|].
      intros i x y Hx Hy. simplify_eq. apply trim_trimmed.
    + unfold parse_labels. apply list_filter_iff. intros l. by destruct l.
  - reflexivity.
Qed.

Lemma handleUpdate_persists_split_trimmed_labels_witness :
  w_db world3 = true
  ∧ w_images world3 !! "a" = Some doc_a
  ∧ d_labels <$> w_images (handleUpdate "a" "dunes" (js "a, b ,  , b") (loaded true) world3).2 !! "a"
      = Some [js "a"; js "b"; js "b"].
Proof.
  split; [reflexivity|]. split; [reflexivity|].
  exact (proj1 (handleUpdate_persists_split_trimmed_labels
    "a" "dunes" (js "a, b ,  , b") (loaded true) world3 doc_a eq_refl eq_refl eq_refl)).
Defined.

(** Labels beyond Latin-1: an ideographic space, two Hebrew letters and a
    byte-order mark; a line separator alone; a letter and a no-break space. *)
Example parse_labels_beyond_latin1 :
  parse_labels [12288; 1497; 1501; 65279; 44; 8232; 44; 1502; 160]%N
    = [[1497; 1501]; [1502]]%N.
Proof. reflexivity. Qed.

(** * Fetch failures *)

(** Whatever fetch fails, the loaded records and the cursor state stay; the
    initial load sets the error state, [handleLoadMore] leaves it as it
    was. *)
Lemma fetch_failure_keeps_records (s : GalleryState) (w : World) :
  (∀ e, (getPaginatedImages PAGE_SIZE None (selectedCategory s) w).1 = Err e →
     let s' := (loadInitialImages s w).1 in
     images s' = images s ∧ lastVisible s' = lastVisible s ∧ hasMore s' = hasMore s
     ∧ error s' = Some "Failed to load images. Please try again later.")
  ∧ (∀ e, hasMore s = true → loadingMore s = false →
       (getPaginatedImages PAGE_SIZE (lastVisible s) (selectedCategory s) w).1 = Err e →
       (handleLoadMore s w).1 = s).
Proof.
  split.
  - intros e He. unfold loadInitialImages. simpl.
    destruct (getPaginatedImages _ _ _ w) as [[r|e'] w1]; simpl in *; [done|]. done.
  - intros e Hmore Hloading He. unfold handleLoadMore. rewrite Hmore, Hloading. simpl.
    destruct (getPaginatedImages _ _ _ w) as [[r|e'] w1]; simpl in *; [done|].
    destruct s; simpl in *; by subst.
Qed.

(** C7 on the code. The first page of the thirteen-record collection loads
    (twelve records, more to come); the load-more request then fails at the
    gateway.  The records and the cursor state stay, but no error state is
    set: the failure only reaches the console, whereas the same failure of
    the initial load sets [error]. *)
Theorem handleLoadMore_failure_unreported :
  let s1 := (loadInitialImages initial_state world13).1 in
  let w1 := (loadInitialImages initial_state world13).2 in
  let s2 := (handleLoadMore s1 w1).1 in
  let w2 := (handleLoadMore s1 w1).2 in
  length (images s1) = 12%nat ∧ hasMore s1 = true ∧ error s1 = None
  ∧ (∃ e, (getPaginatedImages PAGE_SIZE (lastVisible s1) (selectedCategory s1) w1).1 = Err e)
  ∧ images s2 = images s1 ∧ lastVisible s2 = lastVisible s1 ∧ hasMore s2 = hasMore s1
  ∧ error s2 = None
  ∧ filter (λ e, is_console e = false) (w_ui w2) = []
  ∧ error (loadInitialImages s1 (mkWorld true true thirteen_images ∅ None ∅ None
                                   (λ _, true) [] [])).1
      = Some "Failed to load images. Please try again later.".
Proof.
  cbv zeta. split; [vm_compute; reflexivity|].
  split; [vm_compute; reflexivity|]. split; [vm_compute; reflexivity|].
  split; [eexists; vm_compute; reflexivity|].
  repeat split; vm_compute; reflexivity.
Qed.

(** * Deleting records *)

(** What one turn of the loop of [deleteImages] does to the collection. *)
Lemma deleteImage_step_images imageId w :
  (w_images (deleteImage_step imageId w).2 = w_images w
   ∨ w_images (deleteImage_step imageId w).2 = delete imageId (w_images w))
  ∧ ((deleteImage_step imageId w).1 = Ok tt →
       w_images (deleteImage_step imageId w).2 !! imageId = None).
Proof.
  unfold deleteImage_step, getImageDoc, deleteObject, deleteImageDoc.
  unfold_monad. simpl.
  destruct (w_fault w (OpGetImage imageId)); simpl; [by split; [left|]|].
  destruct (w_images w !! imageId) as [d|] eqn:Hd; simpl; [|by split; [left|]].
  destruct (w_fault w (OpDeleteObject _)); simpl; [by split; [left|]|].
  destruct (bool_decide _); simpl; [|by split; [left|]].
  destruct (w_fault w (OpDeleteImage _)); simpl; [by split; [left|]|].
  split; [by right|]. intros _. apply lookup_delete_eq.
Qed.

Lemma deleteImage_step_gone imageId k w :
  w_images w !! k = None → w_images (deleteImage_step imageId w).2 !! k = None.
Proof.
  intros Hk. destruct (deleteImage_step_images imageId w) as [[-> | ->] _]; [done|].
  rewrite lookup_delete. case_decide; done.
Qed.

Lemma deleteImages_loop_gone imageIds k w :
  w_images w !! k = None → w_images (deleteImages_loop imageIds w).2 !! k = None.
Proof.
  revert w. induction imageIds as [|x rest IH]; intros w Hk; simpl; [done|].
  unfold bind. pose proof (deleteImage_step_gone x k w Hk) as Hstep.
  destruct (deleteImage_step x w) as [[[]|e] w1]; simpl in *; [by apply IH|done].
Qed.

(** After the loop went through a list, none of its ids is in the
    collection. *)
Lemma deleteImages_loop_ok imageIds w w1 :
  deleteImages_loop imageIds w = (Ok tt, w1) →
  ∀ y, y ∈ imageIds → w_images w1 !! y = None.
Proof.
  revert w. induction imageIds as [|x rest IH]; intros w Hrun y Hy; [by inv Hy|].
  simpl in Hrun. unfold bind in Hrun.
  destruct (deleteImage_step_images x w) as [_ Hx].
  destruct (deleteImage_step x w) as [[[]|e] w'] eqn:Hstep; simpl in *; [|done].
  apply elem_of_cons in Hy as [->|Hy]; [|by eapply IH].
  pose proof (deleteImages_loop_gone rest x w' (Hx eq_refl)) as Hgone.
  by rewrite Hrun in Hgone.
Qed.


(** A record that vanished is passed over. *)
Lemma deleteImage_step_vanished imageId w :
  w_images w !! imageId = None → w_fault w (OpGetImage imageId) = false →
  deleteImage_step imageId w = (Ok tt, log_call (OpGetImage imageId) w).
Proof.
  intros Hdoc Hfault. unfold deleteImage_step, getImageDoc. unfold_monad. simpl.
  rewrite Hfault. simpl. by rewrite Hdoc.
Qed.

(** C8. Deleting a record whose document is no longer in the collection
    raises no error: the loop of [deleteImages] passes over the id and goes on
    with the rest, [handleDelete] issues no write and shows no alert, and the
    record is not in the resulting local list (for a bulk delete, when the
    whole batch went through). *)
Theorem delete_skips_vanished_record
    (imageId : string) (s : GalleryState) (w : World) :
  w_db w = true → w_storage w = true →
  w_images w !! imageId = None →
  w_fault w (OpGetImage imageId) = false →
  (∀ rest, deleteImages_loop (imageId :: rest) w
             = deleteImages_loop rest (log_call (OpGetImage imageId) w))
  ∧ (handleDelete true imageId s w
      = (setImages (filter (λ img, ImageMetadata.id img ≠ imageId) (images s)) s,
         log_call (OpGetImage imageId) w))
  ∧ (imageId ∉ ImageMetadata.id <$> images (handleDelete true imageId s w).1)
  ∧ (∀ s0 w0, imageId ∈ selectedImages s0 →
       (deleteImages (selectedImages s0) w0).1 = Ok tt →
       imageId ∉ ImageMetadata.id <$> images (handleBulkDelete true s0 w0).1).
Proof.
  intros Hdb Hst Hdoc Hfault.
  pose proof (deleteImage_step_vanished imageId w Hdoc Hfault) as Hstep.
  assert (handleDelete true imageId s w
      = (setImages (filter (λ img, ImageMetadata.id img ≠ imageId) (images s)) s,
         log_call (OpGetImage imageId) w)) as Hdel.
  { unfold handleDelete, deleteImages. unfold_monad. simpl. rewrite Hdb, Hst. simpl.
    unfold bind. rewrite Hstep. done. }
  split; [|split; [done|split]].
  - intros rest. simpl. unfold bind. by rewrite Hstep.
  - rewrite Hdel. simpl. intros (img & Hid & Himg)%list_elem_of_fmap.
    apply list_elem_of_filter in Himg as [Hne _]. done.
  - intros s0 w0 Hsel Hok. unfold handleBulkDelete.
    rewrite bool_decide_eq_false_2 by (intros E; rewrite E in Hsel; by inv Hsel).
    simpl. destruct (deleteImages (selectedImages s0) w0) as [[[]|e] w1]; simpl in *; [|done].
    intros (img & Hid & Himg)%list_elem_of_fmap.
    apply list_elem_of_filter in Himg as [Hne _]. by subst.
Qed.

Lemma delete_skips_vanished_record_witness :
  w_db world_b_gone = true ∧ w_storage world_b_gone = true
  ∧ w_images world_b_gone !! "b" = None
  ∧ w_fault world_b_gone (OpGetImage "b") = false
  ∧ handleDelete true "b" (loaded true) world_b_gone
      = (setImages (filter (λ img, ImageMetadata.id img ≠ "b") (images (loaded true)))
           (loaded true),
         log_call (OpGetImage "b") world_b_gone).
Proof.
  repeat (split; [reflexivity|]).
  exact (proj1 (proj2 (delete_skips_vanished_record "b" (loaded true) world_b_gone
    eq_refl eq_refl eq_refl eq_refl))).
Defined.

(** A bulk delete of [a], the vanished [b], and [c]: no request but the read
    is made for [b], and the batch goes on to [c]. *)
Example bulk_delete_over_vanished :
  w_calls (deleteImages ["a"; "b"; "c"] world_b_gone).2
    = [OpGetImage "a"; OpDeleteObject "url-a"; OpDeleteImage "a";
       OpGetImage "b";
       OpGetImage "c"; OpDeleteObject "url-c"; OpDeleteImage "c"]
  ∧ (deleteImages ["a"; "b"; "c"] world_b_gone).1 = Ok tt.
Proof. split; vm_compute; reflexivity. Qed.





(** The same batch on the code: [a] is deleted, the document [b] cannot be
    deleted, [c] is never asked for. *)
Example bulk_delete_stops_at_b :
  w_calls (deleteImages ["a"; "b"; "c"] (world_with fault_delete_b)).2
    = [OpGetImage "a"; OpDeleteObject "url-a"; OpDeleteImage "a";
       OpGetImage "b"; OpDeleteObject "url-b"; OpDeleteImage "b"]
  ∧ (deleteImages ["a"; "b"; "c"] (world_with fault_delete_b)).1
    = Err (Wrapped "Failed to delete images: " (GatewayError (OpDeleteImage "b"))).
Proof. split; vm_compute; reflexivity. Qed.

(** * Upload *)

(** What a successful [uploadImage] returns and stores. *)
Lemma uploadImage_ok fileName now_ms now newId w img w' :
  uploadImage fileName now_ms now newId w = (Ok img, w') →
  let imageData :=
    mkData (download_url ("images/" +:+ now_ms +:+ "-" +:+ fileName)) fileName "" [] now
      (Some 0) in
  img = image_of_snapshot (mkSnap newId imageData)
  ∧ w_images w' = <[newId := imageData]> (w_images w).
Proof.
  unfold uploadImage, setImageDoc. unfold_monad. simpl. intros H.
  destruct (w_storage w); simpl in H; [|done].
  destruct (w_db w); simpl in H; [|done].
  destruct (w_fault w (OpUploadBytes _)); simpl in H; [done|].
  destruct (w_fault w (OpGetDownloadURL _)); simpl in H; [done|].
  destruct (w_fault w (OpSetImage _ _)); simpl in H; [done|].
  by simplify_eq.
Qed.

(** C10. A record created by a successful upload has [position] 0, an empty
    description and no labels, in the returned value and in the stored
    document; so after a second upload two records of the collection share
    [position] 0. *)
Theorem uploadImage_initial_fields
    (fileName now_ms now newId : string) (w w' : World) (img : ImageMetadata) :
  uploadImage fileName now_ms now newId w = (Ok img, w') →
  ImageMetadata.position img = Some 0
  ∧ ImageMetadata.description img = ""
  ∧ ImageMetadata.labels img = []
  ∧ (∃ d, w_images w' !! ImageMetadata.id img = Some d
          ∧ d_position d = Some 0 ∧ d_description d = "" ∧ d_labels d = [])
  ∧ (∀ fileName2 now_ms2 now2 newId2 w'' img2,
       uploadImage fileName2 now_ms2 now2 newId2 w' = (Ok img2, w'') →
       ImageMetadata.id img2 ≠ ImageMetadata.id img →
       ImageMetadata.position img2 = ImageMetadata.position img
       ∧ d_position <$> w_images w'' !! ImageMetadata.id img = Some (Some 0)
       ∧ d_position <$> w_images w'' !! ImageMetadata.id img2 = Some (Some 0)).
Proof.
  intros H. apply uploadImage_ok in H as [-> Himgs]. simpl.
  split; [done|]. split; [done|]. split; [done|]. split.
  - eexists. rewrite Himgs, lookup_insert_eq. done.
  - intros fileName2 now_ms2 now2 newId2 w'' img2 H2 Hne.
    apply uploadImage_ok in H2 as [-> Himgs2]. simpl in *.
    split; [done|]. rewrite Himgs2, Himgs.
    rewrite lookup_insert_eq, lookup_insert_ne, lookup_insert_eq by done. done.
Qed.

Lemma uploadImage_initial_fields_witness :
  let r := uploadImage "dune.jpg" "1717200000000" "2024-06-01T00:00:00.000Z" "d" world3 in
  r.1 = Ok (ImageMetadata.mk "d"
              "https://firebasestorage.googleapis.com/images/1717200000000-dune.jpg"
              "dune.jpg" "" [] "2024-06-01T00:00:00.000Z" (Some 0))
  ∧ ImageMetadata.position
      (ImageMetadata.mk "d"
         "https://firebasestorage.googleapis.com/images/1717200000000-dune.jpg"
         "dune.jpg" "" [] "2024-06-01T00:00:00.000Z" (Some 0)) = Some 0.
Proof.
  cbv zeta. split; [vm_compute; reflexivity|].
  refine (proj1 (uploadImage_initial_fields "dune.jpg" "1717200000000"
    "2024-06-01T00:00:00.000Z" "d" world3
    (uploadImage "dune.jpg" "1717200000000" "2024-06-01T00:00:00.000Z" "d" world3).2
    _ _)).
  rewrite (surjective_pairing (uploadImage _ _ _ _ _)) at 1.
  f_equal; vm_compute; reflexivity.
Defined.

(** Two uploads into the three-record collection: both new documents have
    [position] 0, as has the older [a]. *)
Example two_uploads_share_position :
  let w1 := (uploadImage "dune.jpg" "1717200000000" "2024-06-01T00:00:00.000Z" "d" world3).2 in
  let w2 := (uploadImage "reef.jpg" "1717200000001" "2024-06-01T00:00:01.000Z" "e" w1).2 in
  (λ k, d_position <$> w_images w2 !! k) <$> ["a"; "d"; "e"]
    = [Some (Some 0); Some (Some 0); Some (Some 0)].
Proof. vm_compute. reflexivity. Qed.

(** * More on the reorder *)

Lemma fmap_renumber {B} (f : ImageMetadata → B) (l : list ImageMetadata) :
  (∀ p x, f (ImageMetadata.with_position p x) = f x) →
  f <$> renumber l = f <$> l.
Proof.
  intros Hf. apply list_eq. intros k. unfold renumber.
  rewrite !list_lookup_fmap, list_lookup_imap.
  destruct (l !! k); simpl; by rewrite ?Hf.
Qed.

Lemma splice_move_Permutation {A} (a : list A) (src dst : nat) (x : A) :
  a !! src = Some x → splice_in dst x (splice_out src a) ≡ₚ a.
Proof.
  intros Hx. unfold splice_in. rewrite <- Permutation_middle, take_drop.
  unfold splice_out. rewrite Permutation_middle. by rewrite take_drop_middle.
Qed.

Lemma splice_in_past_end {A} (l : list A) (dst : nat) (x : A) :
  (length l ≤ dst)%nat → splice_in dst x l = l ++ [x].
Proof. intros Hd. unfold splice_in. by rewrite take_ge, drop_ge by lia. Qed.

(** The handler with its guards passed. *)
Lemma handleDragEnd_admin (src dst : nat) (removed : ImageMetadata)
    (s : GalleryState) (w : World) :
  isAdmin s = true → images s !! src = Some removed →
  let updated := renumber (splice_in dst removed (splice_out src (images s))) in
  let r := promise_all (position_update <$> updated) w in
  handleDragEnd (mkDrop src (Some dst)) s w
    = Some (setImages updated s,
            match r.1 with
            | None => r.2
            | Some err =>
                log_ui Reload
                  (log_ui (ConsoleError "Failed to update image positions:" err) r.2)
            end).
Proof.
  intros Hadmin Hsrc. unfold handleDragEnd. simpl. rewrite Hadmin, Hsrc. simpl.
  by destruct (promise_all _ w) as [[e|] w1].
Qed.

(** X1. A reorder by an admin from a loaded index loses no record and makes
    none twice, whatever the drop slot: apart from [position], the new
    sequence is a permutation of the old one, and nothing else of the
    component state changes.  A drop slot at or past the last index puts the
    record last. *)
Theorem handleDragEnd_keeps_records
    (src dst : nat) (s : GalleryState) (w : World) :
  isAdmin s = true → (src < length (images s))%nat →
  ∃ s' w',
    handleDragEnd (mkDrop src (Some dst)) s w = Some (s', w')
    ∧ s' = setImages (images s') s
    ∧ ImageMetadata.with_position None <$> images s'
        ≡ₚ ImageMetadata.with_position None <$> images s
    ∧ ((length (images s) ≤ S dst)%nat →
         ImageMetadata.id <$> last (images s')
           = ImageMetadata.id <$> images s !! src).
Proof.
  intros Hadmin Hsrc. destruct (lookup_lt_is_Some_2 _ _ Hsrc) as [removed Hrem].
  eexists _, _. split; [by apply handleDragEnd_admin|]. simpl.
  split; [done|]. split.
  - rewrite fmap_renumber by done. by rewrite splice_move_Permutation.
  - intros Hdst. rewrite Hrem. simpl.
    rewrite splice_in_past_end by (rewrite length_splice_out; lia).
    rewrite <- fmap_last, fmap_renumber by done.
    by rewrite fmap_last, last_snoc.
Qed.

Lemma handleDragEnd_keeps_records_witness :
  isAdmin (loaded true) = true ∧ (0 < length (images (loaded true)))%nat
  ∧ ∃ s' w',
      handleDragEnd (mkDrop 0 (Some 7%nat)) (loaded true) world3 = Some (s', w')
      ∧ s' = setImages (images s') (loaded true)
      ∧ ImageMetadata.with_position None <$> images s'
          ≡ₚ ImageMetadata.with_position None <$> images (loaded true)
      ∧ ((length (images (loaded true)) ≤ 8)%nat →
           ImageMetadata.id <$> last (images s')
             = ImageMetadata.id <$> images (loaded true) !! 0%nat).
Proof.
  split; [reflexivity|]. split; [simpl; lia|].
  apply (handleDragEnd_keeps_records 0 7 (loaded true) world3); [reflexivity|simpl; lia].
Defined.

(** One position update that goes through. *)
Lemma position_update_ok (img : ImageMetadata) (d : DocumentData) (w : World) :
  w_fault w (position_write img) = false →
  w_images w !! ImageMetadata.id img = Some d →
  position_update img w
    = (Ok tt,
       with_images
         (<[ImageMetadata.id img :=
              apply_patch (mkPatch None None (ImageMetadata.position img)) d]>
            (w_images w))
         (log_call (position_write img) w)).
Proof.
  intros Hf Hd. unfold position_update, updateImageDoc. unfold_monad.
  unfold position_write in Hf. simpl. rewrite Hf. simpl. by rewrite Hd.
Qed.

(** What a position update keeps, and when it goes through. *)
Lemma position_update_inv (img : ImageMetadata) (w : World) :
  w_fault (position_update img w).2 = w_fault w
  ∧ w_ui (position_update img w).2 = w_ui w
  ∧ (∀ j, w_images (position_update img w).2 !! j = None ↔ w_images w !! j = None)
  ∧ ((position_update img w).1 = Ok tt ↔ ¬ position_update_fails w img).
Proof.
  unfold position_update_fails, position_update, updateImageDoc, position_write.
  unfold_monad. simpl.
  destruct (w_fault w _) eqn:Hf; simpl.
  { repeat split; try done. intros H; by destruct H; left. }
  destruct (w_images w !! ImageMetadata.id img) as [d|] eqn:Hd; simpl.
  - split; [done|]. split; [done|]. split.
    + intros j. destruct (decide (ImageMetadata.id img = j)) as [<-|Hne].
      * rewrite lookup_insert_eq, Hd. done.
      * by rewrite lookup_insert_ne.
    + split; [|done]. intros _ [?|?]; done.
  - repeat split; try done. intros H; by destruct H; right.
Qed.

Lemma promise_all_position_update_ui (imgs : list ImageMetadata) (w : World) :
  w_ui (promise_all (position_update <$> imgs) w).2 = w_ui w.
Proof.
  revert w. induction imgs as [|img imgs IH]; intros w; [done|]. simpl.
  destruct (position_update_inv img w) as (_ & Hui & _).
  destruct (position_update img w) as [[?|e] w1]; simpl in *; by rewrite IH.
Qed.

(** The write-back when every update goes through. *)
Lemma promise_all_position_update_ok (imgs : list ImageMetadata) (w : World) :
  NoDup (ImageMetadata.id <$> imgs) →
  (∀ img, img ∈ imgs →
     w_fault w (position_write img) = false
     ∧ is_Some (w_images w !! ImageMetadata.id img)) →
  ∃ w',
    promise_all (position_update <$> imgs) w = (None, w')
    ∧ (∀ img, img ∈ imgs →
         w_images w' !! ImageMetadata.id img
           = apply_patch (mkPatch None None (ImageMetadata.position img))
               <$> w_images w !! ImageMetadata.id img)
    ∧ (∀ j, j ∉ ImageMetadata.id <$> imgs → w_images w' !! j = w_images w !! j).
Proof.
  revert w. induction imgs as [|img imgs IH]; intros w Hnd Hok.
  { exists w. split; [done|]. split; [by intros ? ?%elem_of_nil|done]. }
  rewrite fmap_cons in Hnd. apply NoDup_cons in Hnd as [Hfresh Hnd].
  destruct (Hok img) as [Hf [d Hd]]; [by left|].
  simpl. rewrite (position_update_ok img d w Hf Hd).
  set (w1 := with_images _ _).
  destruct (IH w1 Hnd) as (w' & Hrun & Hin & Hout).
  { intros img' Hin'. destruct (Hok img') as [Hf' Hd']; [by right|].
    split; [done|]. subst w1. simpl. rewrite lookup_insert_ne; [done|].
    intros E. apply Hfresh. rewrite E. by apply list_elem_of_fmap_2. }
  exists w'. split; [done|]. split.
  - intros img' [->|Hin']%elem_of_cons.
    + rewrite Hout by done. subst w1. simpl. by rewrite lookup_insert_eq, Hd.
    + rewrite Hin by done. subst w1. simpl. rewrite lookup_insert_ne; [done|].
      intros E. apply Hfresh. rewrite E. by apply list_elem_of_fmap_2.
  - intros j Hj. apply not_elem_of_cons in Hj as [Hne Hj].
    rewrite Hout by done. subst w1. simpl. by rewrite lookup_insert_ne.
Qed.

(** X2. When the loaded records have distinct ids, each still has its
    document, and no request fails, the write-back of a reorder brings the
    remote [position] of every loaded record to its new index and changes
    nothing else of its document; documents of records that are not loaded
    are untouched, and nothing is reported (no console error, no reload). *)
Theorem handleDragEnd_write_back
    (src dst : nat) (s : GalleryState) (w : World) :
  isAdmin s = true → (src < length (images s))%nat →
  NoDup (ImageMetadata.id <$> images s) →
  (∀ op, w_fault w op = false) →
  (∀ img, img ∈ images s → is_Some (w_images w !! ImageMetadata.id img)) →
  ∃ s' w',
    handleDragEnd (mkDrop src (Some dst)) s w = Some (s', w')
    ∧ w_ui w' = w_ui w
    ∧ (∀ k img, images s' !! k = Some img →
         ∃ d, w_images w !! ImageMetadata.id img = Some d
              ∧ w_images w' !! ImageMetadata.id img
                  = Some (mkData (d_url d) (d_fileName d) (d_description d)
                            (d_labels d) (d_createdAt d) (Some (Z.of_nat k))))
    ∧ (∀ j, j ∉ ImageMetadata.id <$> images s → w_images w' !! j = w_images w !! j).
Proof.
  intros Hadmin Hsrc Hnd Hfault Hdocs.
  destruct (lookup_lt_is_Some_2 _ _ Hsrc) as [removed Hrem].
  pose proof (handleDragEnd_admin src dst removed s w Hadmin Hrem) as Hrun.
  cbv zeta in Hrun.
  set (updated := renumber (splice_in dst removed (splice_out src (images s)))) in *.
  assert (ImageMetadata.id <$> updated ≡ₚ ImageMetadata.id <$> images s) as Hperm.
  { subst updated. rewrite fmap_renumber by done.
    by rewrite splice_move_Permutation. }
  destruct (promise_all_position_update_ok updated w) as (w' & Hall & Hin & Hout).
  { by rewrite Hperm. }
  { intros img Himg. split; [apply Hfault|].
    assert (ImageMetadata.id img ∈ ImageMetadata.id <$> images s) as Hid.
    { rewrite <- Hperm. by apply list_elem_of_fmap_2. }
    apply list_elem_of_fmap in Hid as (img0 & -> & Himg0). by apply Hdocs. }
  rewrite Hall in Hrun. simpl in Hrun.
  exists (setImages updated s), w'. split; [done|].
  split; [|split].
  - pose proof (promise_all_position_update_ui updated w) as Hui.
    by rewrite Hall in Hui.
  - simpl. intros k img Hk.
    assert (img ∈ updated) as Himg by (by eapply list_elem_of_lookup_2).
    assert (ImageMetadata.position img = Some (Z.of_nat k)) as Hpos.
    { subst updated. unfold renumber in Hk. rewrite list_lookup_imap in Hk.
      destruct (_ !! k); by simplify_eq/=. }
    rewrite (Hin img Himg), Hpos.
    assert (ImageMetadata.id img ∈ ImageMetadata.id <$> images s) as Hid.
    { rewrite <- Hperm. by apply list_elem_of_fmap_2. }
    apply list_elem_of_fmap in Hid as (img0 & Hid & Himg0).
    destruct (Hdocs img0 Himg0) as [d Hd]. rewrite Hid. exists d. by rewrite Hd.
  - intros j Hj. apply Hout. by rewrite Hperm.
Qed.

Lemma handleDragEnd_write_back_witness :
  isAdmin (loaded true) = true ∧ (0 < length (images (loaded true)))%nat
  ∧ ∃ s' w',
      handleDragEnd (mkDrop 0 (Some 2%nat)) (loaded true) world3 = Some (s', w')
      ∧ w_ui w' = w_ui world3
      ∧ (∀ k img, images s' !! k = Some img →
           ∃ d, w_images world3 !! ImageMetadata.id img = Some d
                ∧ w_images w' !! ImageMetadata.id img
                    = Some (mkData (d_url d) (d_fileName d) (d_description d)
                              (d_labels d) (d_createdAt d) (Some (Z.of_nat k))))
      ∧ (∀ j, j ∉ ImageMetadata.id <$> images (loaded true) →
           w_images w' !! j = w_images world3 !! j).
Proof.
  split; [reflexivity|]. split; [simpl; lia|].
  apply (handleDragEnd_write_back 0 2 (loaded true) world3).
  - reflexivity.
  - simpl; lia.
  - compute_done.
  - reflexivity.
  - intros img Himg. apply list_elem_of_In in Himg. simpl in Himg.
    destruct Himg as [<-|[<-|[<-|[]]]]; vm_compute; eauto.
Defined.

(** After the reorder: remote positions of [b; c; a]. *)
Example handleDragEnd_remote_positions :
  (λ r, (λ k, d_position <$> w_images r.2 !! k) <$> ["b"; "c"; "a"])
    <$> handleDragEnd (mkDrop 0 (Some 2%nat)) (loaded true) world3
  = Some [Some (Some 0); Some (Some 1); Some (Some 2)].
Proof. vm_compute. reflexivity. Qed.

Lemma promise_all_position_update_fails (imgs : list ImageMetadata) (w : World) :
  (∃ img, img ∈ imgs ∧ position_update_fails w img) →
  ∃ e, (promise_all (position_update <$> imgs) w).1 = Some e.
Proof.
  revert w. induction imgs as [|img imgs IH]; intros w (bad & Hbad & Hfails).
  { by apply elem_of_nil in Hbad. }
  simpl. destruct (position_update_inv img w) as (Hf & _ & Hnone & Hok).
  destruct (position_update img w) as [[[]|e] w1] eqn:Hrun; simpl in *; [|by eexists].
  apply IH. exists bad.
  apply elem_of_cons in Hbad as [->|Hbad]; [by destruct (proj1 Hok eq_refl)|].
  split; [done|]. unfold position_update_fails in *. rewrite Hf, Hnone. done.
Qed.

(** X3. When the update of some loaded record cannot go through (its request
    fails or its document is gone), the reorder still issues the update of
    every loaded record, keeps the optimistic local order, and reports by a
    console error followed by a reload of the page. *)
Theorem handleDragEnd_write_back_failure
    (src dst : nat) (s s' : GalleryState) (w w' : World) (img : ImageMetadata) :
  isAdmin s = true →
  handleDragEnd (mkDrop src (Some dst)) s w = Some (s', w') →
  img ∈ images s' → position_update_fails w img →
  ∃ e,
    w_ui w' = w_ui w ++ [ConsoleError "Failed to update image positions:" e; Reload]
    ∧ w_calls w' = w_calls w ++ (position_write <$> images s')
    ∧ s' = setImages (images s') s.
Proof.
  intros Hadmin Hrun Himg Hfails.
  destruct (images s !! src) as [removed|] eqn:Hrem.
  2:{ unfold handleDragEnd in Hrun. simpl in Hrun. by rewrite Hadmin, Hrem in Hrun. }
  rewrite (handleDragEnd_admin src dst removed s w Hadmin Hrem) in Hrun.
  cbv zeta in Hrun.
  set (updated := renumber (splice_in dst removed (splice_out src (images s)))) in *.
  pose proof (promise_all_position_update updated w) as Hcalls.
  pose proof (promise_all_position_update_ui updated w) as Hui.
  injection Hrun as <- <-. simpl in Himg.
  destruct (promise_all_position_update_fails updated w) as [e He]; [by eauto|].
  rewrite He. exists e. simpl. rewrite Hui, Hcalls, <- app_assoc. done.
Qed.

Lemma handleDragEnd_write_back_failure_witness :
  ∃ s' w' e,
    handleDragEnd (mkDrop 0 (Some 2%nat)) (loaded true) world_b_gone = Some (s', w')
    ∧ ImageMetadata.with_position (Some 0) image_b ∈ images s'
    ∧ w_ui w' = w_ui world_b_gone
                  ++ [ConsoleError "Failed to update image positions:" e; Reload].
Proof.
  assert (∃ s' w',
    handleDragEnd (mkDrop 0 (Some 2%nat)) (loaded true) world_b_gone = Some (s', w')
    ∧ ImageMetadata.with_position (Some 0) image_b ∈ images s') as (s' & w' & Hrun & Hin).
  { eexists _, _. split; [vm_compute; reflexivity|]. simpl. by left. }
  destruct (handleDragEnd_write_back_failure 0 2 (loaded true) s' world_b_gone w'
    (ImageMetadata.with_position (Some 0) image_b) eq_refl Hrun Hin) as (e & Hui & _).
  { right. vm_compute. reflexivity. }
  by exists s', w', e.
Defined.

(** * Selection and sessions *)

(** An admin's toggle, as a list operation. *)
Lemma toggleImageSelection_admin (imageId : string) (s : GalleryState) (w : World) :
  isAdmin s = true →
  toggleImageSelection imageId s w
    = (if bool_decide (imageId ∈ selectedImages s)
       then
         let newSelection := filter (λ x, x ≠ imageId) (selectedImages s) in
         setSelectedImages newSelection
           (setIsSelectionMode (negb (bool_decide (newSelection = []))) s)
       else setSelectedImages (selectedImages s ++ [imageId]) (setIsSelectionMode true s),
       w).
Proof.
  intros Hadmin. unfold toggleImageSelection. rewrite Hadmin. simpl.
  destruct (bool_decide (imageId ∈ selectedImages s)); [|done].
  by destruct (bool_decide (filter _ _ = [])).
Qed.

Lemma toggleImageSelection_ok (imageId : string) (s : GalleryState) (w : World) :
  selection_ok s → selection_ok (toggleImageSelection imageId s w).1.
Proof.
  intros [Hnd Hmode]. destruct (isAdmin s) eqn:Hadmin.
  2:{ unfold toggleImageSelection. rewrite Hadmin. by split. }
  rewrite toggleImageSelection_admin by done. simpl.
  destruct (bool_decide (imageId ∈ selectedImages s)) eqn:Hin; simpl.
  - split; simpl; [by apply NoDup_filter|].
    destruct (bool_decide (filter _ _ = [])) eqn:E; simpl.
    + apply bool_decide_eq_true in E. split; [done|]. intros H. by destruct H.
    + apply bool_decide_eq_false in E. done.
  - apply bool_decide_eq_false in Hin. split; simpl.
    + apply NoDup_app. split; [done|]. split; [|apply NoDup_singleton].
      intros x Hx ->%list_elem_of_singleton. done.
    + split; [|done]. intros _. by destruct (selectedImages s).
Qed.

(** X4. For an admin, [toggleImageSelection] behaves as the toggle of a set:
    the selection keeps having no id twice, the toggled id changes sides and
    no other id does, the bulk mode is on afterwards exactly when the
    selection is not empty, and neither the records nor the world change. *)
Theorem toggleImageSelection_toggles
    (imageId : string) (s : GalleryState) (w : World) :
  isAdmin s = true → NoDup (selectedImages s) →
  ∃ s',
    toggleImageSelection imageId s w = (s', w)
    ∧ NoDup (selectedImages s')
    ∧ (∀ x, x ∈ selectedImages s'
            ↔ (x ≠ imageId ∧ x ∈ selectedImages s)
              ∨ (x = imageId ∧ imageId ∉ selectedImages s))
    ∧ (isSelectionMode s' = true ↔ selectedImages s' ≠ [])
    ∧ images s' = images s ∧ editingImage s' = editingImage s.
Proof.
  intros Hadmin Hnd. eexists. split; [by apply toggleImageSelection_admin|].
  destruct (bool_decide (imageId ∈ selectedImages s)) eqn:Hin; simpl.
  - apply bool_decide_eq_true in Hin.
    split; [by apply NoDup_filter|]. split; [|split; [|done]].
    + intros x. rewrite list_elem_of_filter. split; [by left|].
      intros [H|[_ H]]; done.
    + destruct (bool_decide (filter _ _ = [])) eqn:E; simpl.
      * apply bool_decide_eq_true in E. split; [done|]. intros H. by destruct H.
      * apply bool_decide_eq_false in E. done.
  - apply bool_decide_eq_false in Hin. split; [|split; [|split; [|done]]].
    + apply NoDup_app. split; [done|]. split; [|apply NoDup_singleton].
      intros x Hx ->%list_elem_of_singleton. done.
    + intros x. rewrite elem_of_app, list_elem_of_singleton.
      destruct (decide (x = imageId)) as [->|Hne].
      * split; [by right|]. intros _. by right.
      * split; [intros [H|H]; [by left|done]|]. intros [[_ H]|[H _]]; [by left|done].
    + split; [|done]. intros _. by destruct (selectedImages s).
Qed.

Lemma toggleImageSelection_toggles_witness :
  isAdmin (loaded true) = true ∧ NoDup (selectedImages (loaded true))
  ∧ ∃ s',
      toggleImageSelection "b" (loaded true) world3 = (s', world3)
      ∧ NoDup (selectedImages s')
      ∧ (∀ x, x ∈ selectedImages s'
              ↔ (x ≠ "b" ∧ x ∈ selectedImages (loaded true))
                ∨ (x = "b" ∧ "b" ∉ selectedImages (loaded true)))
      ∧ (isSelectionMode s' = true ↔ selectedImages s' ≠ [])
      ∧ images s' = images (loaded true)
      ∧ editingImage s' = editingImage (loaded true).
Proof.
  split; [reflexivity|]. split; [apply NoDup_nil_2|].
  apply (toggleImageSelection_toggles "b" (loaded true) world3);
    [reflexivity|apply NoDup_nil_2].
Defined.

(** The handlers of a control keep the selection in order. *)
Lemma fire_keeps_selection (a : Action) (s s' : GalleryState) (w w' : World) :
  fire a s w = Some (s', w') → selection_ok s → selection_ok s'.
Proof.
  intros Hfire. destruct a; simpl in Hfire.
  - by simplify_eq.
  - unfold handleLoadMore in Hfire.
    destruct (negb (hasMore s) || loadingMore s); [by simplify_eq|].
    destruct (getPaginatedImages _ _ _ w) as [[r|e] w1]; by simplify_eq.
  - unfold handleContact in Hfire. by simplify_eq.
  - unfold handleDragEnd in Hfire.
    destruct (destination result); [|by simplify_eq].
    destruct (negb (isAdmin s)); [by simplify_eq|].
    destruct (images s !! source_index result); [|done]. simpl in Hfire.
    destruct (promise_all _ w) as [[e|] w1]; by simplify_eq.
  - assert (s' = (toggleImageSelection imageId s w).1) as ->.
    { injection Hfire as E. by rewrite E. }
    apply toggleImageSelection_ok.
  - unfold handleSetAsBackground in Hfire.
    destruct (updateSiteSettings _ _ w) as [[?|e] w1]; by simplify_eq.
  - by simplify_eq.
  - destruct (editingImage s) as [e|]; [|by simplify_eq].
    assert (s' = (toggleImageSelection e (setEditingImage None s) w).1) as ->.
    { injection Hfire as E. by rewrite E. }
    intros Hok. by apply toggleImageSelection_ok.
  - assert (s' = (toggleImageSelection imageId
                    (handleUpdate imageId description labels s w).1
                    (handleUpdate imageId description labels s w).2).1) as ->.
    { injection Hfire as E. by rewrite E. }
    intros Hok. apply toggleImageSelection_ok. unfold handleUpdate.
    destruct (updateImageMetadata _ _ w) as [[?|e] w1]; done.
  - unfold handleDelete in Hfire. destruct (negb confirmed); [by simplify_eq|].
    destruct (deleteImages _ w) as [[?|e] w1]; by simplify_eq.
  - unfold handleBulkDelete in Hfire.
    destruct (bool_decide (selectedImages s = [])); [by simplify_eq|].
    destruct (negb confirmed); [by simplify_eq|].
    destruct (deleteImages _ w) as [[?|e] w1]; simplify_eq; [|done].
    intros _. split; simpl; [apply NoDup_nil_2|done].
Qed.

(** What a single control does to the selection, to [isAdmin] and to the
    category filter: its handlers keep all three, and a reload empties the
    selection, clears the filter and asks the admin check again. *)
Lemma step_keeps (a : Action) (s s' : GalleryState) (w w' : World) :
  step a s w = Some (s', w') →
  (selection_ok s → selection_ok s')
  ∧ same_backend w w'
  ∧ (isAdmin s' = isAdmin s ∨ isAdmin s' = isAdmin (checkAdmin initial_state w).1)
  ∧ (selectedCategory s' = selectedCategory s ∨ selectedCategory s' = None).
Proof.
  intros Hstep. unfold step in Hstep.
  destruct (fire a s w) as [[s1 w1]|] eqn:Hfire; [|done].
  pose proof (fire_backend a s s1 w w1 Hfire) as Hback.
  destruct (reloaded w w1).
  - assert (s' = (mount w1).1 ∧ w' = (mount w1).2) as [-> ->].
    { injection Hstep as E. by rewrite E. }
    destruct (mount_state w1) as (Ha & _ & Hsel & Hmode & Hcat).
    destruct (mount_world w1) as [Hmb _].
    split; [|split; [by etrans|split; right]].
    + intros _. split; [rewrite Hsel; apply NoDup_nil_2|]. rewrite Hsel, Hmode. done.
    + by rewrite Ha, (checkAdmin_backend _ _ _ Hback).
    + done.
  - simplify_eq. destruct (fire_keeps_identity a s s' w w' Hfire) as [? ?].
    split; [by eapply fire_keeps_selection|]. split; [done|]. split; by left.
Qed.

(** X5. Whatever controls are used, in whatever order and with whatever
    outcome of the requests, the selection never holds an id twice and the
    bulk mode is on exactly when the selection is not empty. *)
Theorem run_keeps_selection_ok
    (acts : list Action) (s s' : GalleryState) (w w' : World) :
  selection_ok s → run acts s w = Some (s', w') → selection_ok s'.
Proof.
  revert s w. induction acts as [|a acts IH]; intros s w Hok Hrun; simpl in Hrun.
  - by simplify_eq.
  - destruct (offered s a); [|done].
    destruct (step a s w) as [[s1 w1]|] eqn:Hstep; [|done].
    destruct (step_keeps a s s1 w w1 Hstep) as (Hsel & _). eauto.
Qed.

Lemma run_keeps_selection_ok_witness :
  ∃ s' w',
    run [ActToggle "a"; ActToggle "c"; ActToggle "a"; ActBulkDelete true]
        (loaded true) world3 = Some (s', w')
    ∧ selection_ok (loaded true) ∧ selection_ok s'.
Proof.
  assert (selection_ok (loaded true)) as Hok.
  { split; [apply NoDup_nil_2|]. simpl. split; [done|]. intros H. by destruct H. }
  assert (∃ s' w',
    run [ActToggle "a"; ActToggle "c"; ActToggle "a"; ActBulkDelete true]
        (loaded true) world3 = Some (s', w')) as (s' & w' & Hrun).
  { eexists _, _. vm_compute. reflexivity. }
  exists s', w'. split; [exact Hrun|]. split; [exact Hok|].
  exact (run_keeps_selection_ok _ _ _ _ _ Hok Hrun).
Defined.

(** An admin selects [a] and [c], deselects [a], and deletes the selection:
    [c] is gone, locally and remotely. *)
Example admin_bulk_session :
  (λ r, (ImageMetadata.id <$> images r.1, selectedImages r.1, isSelectionMode r.1,
         writes r.2))
    <$> run [ActToggle "a"; ActToggle "c"; ActToggle "a"; ActBulkDelete true]
            (loaded true) world3
  = Some (["a"; "b"], [], false, [OpDeleteObject "url-c"; OpDeleteImage "c"]).
Proof. vm_compute. reflexivity. Qed.

(** The click on Save reaches the card: after an admin's edit of [a] went
    through, [a] is selected and the bulk mode is on. *)
Example save_selects_the_record :
  (λ r, (editingImage r.1, selectedImages r.1, isSelectionMode r.1))
    <$> run [ActEdit "a"; ActSave "a" "dunes" (js "sand, sea")] (loaded true) world3
  = Some (None, ["a"], true).
Proof. vm_compute. reflexivity. Qed.

(** Through a session, [isAdmin] and the filter change by reloads only. *)
Lemma run_identity (acts : list Action) (s s' : GalleryState) (w w' : World) :
  run acts s w = Some (s', w') →
  same_backend w w'
  ∧ (isAdmin s' = isAdmin s ∨ isAdmin s' = isAdmin (checkAdmin initial_state w).1)
  ∧ (selectedCategory s' = selectedCategory s ∨ selectedCategory s' = None).
Proof.
  revert s w. induction acts as [|a acts IH]; intros s w Hrun; simpl in Hrun.
  - simplify_eq. split; [done|]. split; by left.
  - destruct (offered s a); [|done].
    destruct (step a s w) as [[s1 w1]|] eqn:Hstep; [|done].
    destruct (step_keeps a s s1 w w1 Hstep) as (_ & Hback & Ha1 & Hc1).
    destruct (IH s1 w1 Hrun) as (Hback2 & Ha2 & Hc2).
    rewrite (checkAdmin_backend _ _ _ Hback) in Ha2.
    split; [by etrans|]. split.
    + destruct Ha2 as [->| ->]; [done|by right].
    + destruct Hc2 as [->| ->]; [done|by right].
Qed.

(** X6. No handler of the gallery changes [isAdmin] or the category filter;
    they change only when the page reloads (the retry control, a failed
    write-back of a reorder), which mounts the component anew: the filter is
    none again and [isAdmin] is what the admin check answers.  So at the end
    of any session [isAdmin] is the value it had or the answer of the admin
    check, the filter is the one there was or none, and a user is admin only
    if they were before or their user document says so. *)
Theorem run_isAdmin_and_category
    (acts : list Action) (s s' : GalleryState) (w w' : World) :
  run acts s w = Some (s', w') →
  (isAdmin s' = isAdmin s ∨ isAdmin s' = isAdmin (checkAdmin initial_state w).1)
  ∧ (selectedCategory s' = selectedCategory s ∨ selectedCategory s' = None)
  ∧ (isAdmin s' = true →
       isAdmin s = true
       ∨ ∃ u, w_session w = Some u ∧ w_db w = true
              ∧ w_fault w (OpGetUser u) = false ∧ w_users w !! u = Some "admin")
  ∧ (∀ a s1 w1, fire a s w = Some (s1, w1) →
       isAdmin s1 = isAdmin s ∧ selectedCategory s1 = selectedCategory s).
Proof.
  intros Hrun. destruct (run_identity acts s s' w w' Hrun) as (_ & Ha & Hc).
  split; [done|]. split; [done|]. split.
  - intros Hadmin. destruct Ha as [Ha|Ha]; rewrite Hadmin in Ha; [by left|right].
    symmetry in Ha. revert Ha. unfold checkAdmin, checkAdminStatus. unfold_monad. simpl.
    destruct (w_session w) as [u|]; [|done]. destruct (w_db w); simpl; [|done].
    destruct (w_fault w (OpGetUser u)) eqn:Hf; simpl; [done|].
    intros Hrole%bool_decide_eq_true. by exists u.
  - intros a s1 w1. apply fire_keeps_identity.
Qed.

Lemma run_isAdmin_and_category_witness :
  ∃ s' w',
    run [ActDrag (mkDrop 0 (Some 2%nat))] (loaded true) world_b_gone = Some (s', w')
    ∧ isAdmin (loaded true) = true ∧ isAdmin s' = false
    ∧ (isAdmin s' = isAdmin (loaded true)
       ∨ isAdmin s' = isAdmin (checkAdmin initial_state world_b_gone).1).
Proof.
  assert (∃ s' w',
    run [ActDrag (mkDrop 0 (Some 2%nat))] (loaded true) world_b_gone = Some (s', w')
    ∧ isAdmin s' = false) as (s' & w' & Hrun & Ha).
  { eexists _, _. split; vm_compute; reflexivity. }
  exists s', w'. split; [exact Hrun|]. split; [reflexivity|]. split; [exact Ha|].
  exact (proj1 (run_isAdmin_and_category _ _ _ _ _ Hrun)).
Defined.

(** A write-back that fails reloads the page: the gallery is mounted anew
    and shows the records as the collection has them, [a] and [c] with the
    positions that were written; the admin [u1] is admin again after the
    reload. *)
Example reorder_failure_reloads :
  (λ r, ((λ i, (ImageMetadata.id i, ImageMetadata.position i)) <$> images r.1,
         isAdmin r.1, selectedImages r.1))
    <$> run [ActToggle "a"; ActDrag (mkDrop 0 (Some 2%nat))]
          (loaded true)
          (mkWorld true true (delete "b" three_images) {["url-a"; "url-c"]} None
             (w_users world_admin) (Some "u1") no_fault [] [])
  = Some ([("a", Some 2); ("c", Some 1)], true, []).
Proof. vm_compute. reflexivity. Qed.

(** * More on deleting *)

(** One turn of the loop touches the document and the object of its id
    only, and nothing else of the world but the request log. *)
Lemma deleteImage_step_frame (imageId : string) (w : World) :
  (∀ k, k ≠ imageId →
     w_images (deleteImage_step imageId w).2 !! k = w_images w !! k)
  ∧ (∀ k d, w_images (deleteImage_step imageId w).2 !! k = Some d →
       w_images w !! k = Some d)
  ∧ w_blobs (deleteImage_step imageId w).2 ⊆ w_blobs w
  ∧ w_settings (deleteImage_step imageId w).2 = w_settings w
  ∧ w_ui (deleteImage_step imageId w).2 = w_ui w.
Proof.
  unfold deleteImage_step, getImageDoc, deleteObject, deleteImageDoc.
  unfold_monad. simpl.
  destruct (w_fault w (OpGetImage imageId)); simpl; [done|].
  destruct (w_images w !! imageId) as [d|] eqn:Hd; simpl; [|done].
  destruct (w_fault w (OpDeleteObject _)); simpl; [done|].
  destruct (bool_decide _); simpl; [|done].
  destruct (w_fault w (OpDeleteImage _)); simpl.
  - repeat split; try done. by apply subseteq_difference_l.
  - split; [intros k Hk; by rewrite lookup_delete_ne|].
    split; [|split; [by apply subseteq_difference_l|done]].
    intros k d'. rewrite lookup_delete. case_decide; done.
Qed.

Lemma deleteImages_loop_frame (imageIds : list string) (w : World) :
  (∀ k, k ∉ imageIds →
     w_images (deleteImages_loop imageIds w).2 !! k = w_images w !! k)
  ∧ (∀ k d, w_images (deleteImages_loop imageIds w).2 !! k = Some d →
       w_images w !! k = Some d)
  ∧ w_blobs (deleteImages_loop imageIds w).2 ⊆ w_blobs w
  ∧ w_settings (deleteImages_loop imageIds w).2 = w_settings w
  ∧ w_ui (deleteImages_loop imageIds w).2 = w_ui w.
Proof.
  revert w. induction imageIds as [|x rest IH]; intros w; simpl; [done|].
  unfold bind. destruct (deleteImage_step_frame x w) as (Hk & Hd & Hb & Hs & Hu).
  destruct (deleteImage_step x w) as [[[]|e] w1]; simpl in *.
  - destruct (IH w1) as (Hk' & Hd' & Hb' & Hs' & Hu').
    split; [|split; [|split; [|split]]].
    + intros k [Hne Hrest]%not_elem_of_cons. rewrite Hk' by done. by apply Hk.
    + intros k d Hkd. by apply Hd, Hd'.
    + by etrans.
    + congruence.
    + congruence.
  - split; [|done]. intros k [Hne _]%not_elem_of_cons. by apply Hk.
Qed.

(** [deleteImages] around its loop. *)
Lemma deleteImages_unfold (imageIds : list string) (w : World) :
  w_db w = true → w_storage w = true →
  (deleteImages imageIds w).2 = (deleteImages_loop imageIds w).2
  ∧ ((deleteImages imageIds w).1 = Ok tt →
       deleteImages_loop imageIds w = (Ok tt, (deleteImages imageIds w).2)).
Proof.
  intros Hdb Hst. unfold deleteImages. unfold_monad. simpl. rewrite Hdb, Hst. simpl.
  destruct (deleteImages_loop imageIds w) as [[[]|e] w1]; simpl; split; done.
Qed.

Lemma deleteImages_not_ready (imageIds : list string) (w : World) :
  w_db w && w_storage w = false →
  deleteImages imageIds w = (Err (PlainError "Firebase services not initialized"), w).
Proof.
  intros H. unfold deleteImages. unfold_monad. simpl.
  destruct (w_db w), (w_storage w); done.
Qed.

Lemma deleteImages_frame_parts (imageIds : list string) (w : World) :
  (∀ k, k ∉ imageIds → w_images (deleteImages imageIds w).2 !! k = w_images w !! k)
  ∧ (∀ k d, w_images (deleteImages imageIds w).2 !! k = Some d →
       w_images w !! k = Some d)
  ∧ w_blobs (deleteImages imageIds w).2 ⊆ w_blobs w
  ∧ w_settings (deleteImages imageIds w).2 = w_settings w
  ∧ w_ui (deleteImages imageIds w).2 = w_ui w
  ∧ ((deleteImages imageIds w).1 = Ok tt →
       ∀ k, k ∈ imageIds → w_images (deleteImages imageIds w).2 !! k = None).
Proof.
  destruct (w_db w && w_storage w) eqn:Hready.
  - apply andb_true_iff in Hready as [Hdb Hst].
    destruct (deleteImages_unfold imageIds w Hdb Hst) as [-> Hok].
    destruct (deleteImages_loop_frame imageIds w) as (? & ? & ? & ? & ?).
    repeat (split; [done|]). intros Hrun k Hk.
    specialize (Hok Hrun). eapply deleteImages_loop_ok; [exact Hok|done].
  - rewrite deleteImages_not_ready by done. simpl. repeat (split; [done|]). done.
Qed.

(** X7. Whatever its outcome, [deleteImages] touches no document outside the
    given ids and changes none (a document is there as before or gone), adds
    no object, and leaves the site settings alone; when it returns, every
    given id is gone from the collection. *)
Theorem deleteImages_frame (imageIds : list string) (w : World) :
  (∀ k, k ∉ imageIds → w_images (deleteImages imageIds w).2 !! k = w_images w !! k)
  ∧ (∀ k d, w_images (deleteImages imageIds w).2 !! k = Some d →
       w_images w !! k = Some d)
  ∧ w_blobs (deleteImages imageIds w).2 ⊆ w_blobs w
  ∧ w_settings (deleteImages imageIds w).2 = w_settings w
  ∧ ((deleteImages imageIds w).1 = Ok tt →
       ∀ k, k ∈ imageIds → w_images (deleteImages imageIds w).2 !! k = None).
Proof.
  destruct (deleteImages_frame_parts imageIds w) as (? & ? & ? & ? & _ & ?). done.
Qed.

(** X8. After a bulk delete that went through, the selection is empty and
    the bulk mode off, the local list is the old one without the selected
    records, every selected document is gone from the collection, every
    record still listed has its document as before, and nothing was
    reported. *)
Theorem handleBulkDelete_success (s : GalleryState) (w : World) :
  selectedImages s ≠ [] →
  (deleteImages (selectedImages s) w).1 = Ok tt →
  selectedImages (handleBulkDelete true s w).1 = []
  ∧ isSelectionMode (handleBulkDelete true s w).1 = false
  ∧ images (handleBulkDelete true s w).1
      = filter (λ img, ImageMetadata.id img ∉ selectedImages s) (images s)
  ∧ (∀ k, k ∈ selectedImages s → w_images (handleBulkDelete true s w).2 !! k = None)
  ∧ (∀ img, img ∈ images (handleBulkDelete true s w).1 →
       w_images (handleBulkDelete true s w).2 !! ImageMetadata.id img
         = w_images w !! ImageMetadata.id img)
  ∧ w_ui (handleBulkDelete true s w).2 = w_ui w.
Proof.
  intros Hsel Hok.
  destruct (deleteImages_frame_parts (selectedImages s) w)
    as (Hout & _ & _ & _ & Hui & Hgone).
  unfold handleBulkDelete. rewrite bool_decide_eq_false_2 by done. simpl.
  destruct (deleteImages (selectedImages s) w) as [[[]|e] w1]; simpl in *; [|done].
  repeat (split; [done|]). split; [by apply Hgone|]. split; [|done].
  intros img [Hne _]%list_elem_of_filter. by apply Hout.
Qed.

Lemma handleBulkDelete_success_witness :
  selectedImages (setSelectedImages ["a"; "c"] (loaded true)) ≠ []
  ∧ (deleteImages (selectedImages (setSelectedImages ["a"; "c"] (loaded true))) world3).1
      = Ok tt
  ∧ images (handleBulkDelete true (setSelectedImages ["a"; "c"] (loaded true)) world3).1
      = filter (λ img, ImageMetadata.id img ∉ ["a"; "c"]) (images (loaded true)).
Proof.
  assert (selectedImages (setSelectedImages ["a"; "c"] (loaded true)) ≠ []) as Hsel by done.
  assert ((deleteImages (selectedImages (setSelectedImages ["a"; "c"] (loaded true)))
             world3).1 = Ok tt) as Hok by (vm_compute; reflexivity).
  split; [exact Hsel|]. split; [exact Hok|].
  exact (proj1 (proj2 (proj2 (handleBulkDelete_success _ _ Hsel Hok)))).
Defined.

(** * Without the Firebase services *)

(** X9. Without Firestore nobody is admin and no request is made.  The
    admin check answers false, so the mounted gallery has [isAdmin] off, and
    it stays off through any session.  The initial load ends in the error
    state and load-more only logs; update, set-background, delete and bulk
    delete leave the component state as it was, issue no request and show
    their failure alert; the toggle touches neither the records nor the
    world; and the reorder of a user who is no admin returns at once.  (A
    reorder by an admin is outside this statement: without Firestore there
    is no admin.) *)
Theorem handlers_without_firestore
    (s : GalleryState) (w : World) (imageId description now url : string)
    (labels : jsstring) (result : DropResult) :
  w_db w = false →
  (isAdmin (mount w).1 = false
   ∧ ∀ acts s' w', run acts (mount w).1 (mount w).2 = Some (s', w') → isAdmin s' = false)
  ∧ (w_calls (loadInitialImages s w).2 = w_calls w
     ∧ images (loadInitialImages s w).1 = images s
     ∧ error (loadInitialImages s w).1 = Some "Failed to load images. Please try again later.")
  ∧ (w_calls (handleLoadMore s w).2 = w_calls w
     ∧ images (handleLoadMore s w).1 = images s
     ∧ error (handleLoadMore s w).1 = error s)
  ∧ handleUpdate imageId description labels s w
      = (s, log_ui (Alert "Failed to update image. Please try again.")
              (log_ui (ConsoleError "Failed to update image:"
                         (PlainError "Firestore is not initialized")) w))
  ∧ handleSetAsBackground now url s w
      = (s, log_ui (Alert "Failed to update background. Please try again.")
              (log_ui (ConsoleError "Failed to update background:"
                         (PlainError "Firestore is not initialized")) w))
  ∧ handleDelete false imageId s w = (s, w)
  ∧ handleDelete true imageId s w
      = (s, log_ui (Alert "Failed to delete image. Please try again.")
              (log_ui (ConsoleError "Failed to delete image:"
                         (PlainError "Firebase services not initialized")) w))
  ∧ (∀ confirmed,
       handleBulkDelete confirmed s w
         = (s, if bool_decide (selectedImages s = []) || negb confirmed then w
               else log_ui (Alert "Failed to delete images. Please try again.")
                      (log_ui (ConsoleError "Failed to delete images:"
                                 (PlainError "Firebase services not initialized")) w)))
  ∧ ((toggleImageSelection imageId s w).2 = w
     ∧ images (toggleImageSelection imageId s w).1 = images s)
  ∧ (isAdmin s = false → handleDragEnd result s w = Some (s, w)).
Proof.
  intros Hdb.
  assert (∀ s0 w0, w_db w0 = false → isAdmin s0 = false →
            isAdmin (checkAdmin s0 w0).1 = false) as Hcheck.
  { intros s0 w0 Hdb0 Hs0. unfold checkAdmin, checkAdminStatus. unfold_monad. simpl.
    rewrite Hdb0. by destruct (w_session w0). }
  split; [|split; [|split; [|split; [|split; [|split; [|split; [|split; [|split]]]]]]]].
  - destruct (mount_state w) as (Hm & _). destruct (mount_world w) as [Hback _].
    assert (isAdmin (mount w).1 = false) as Hmount by (rewrite Hm; by apply Hcheck).
    split; [done|]. intros acts s' w' Hrun.
    destruct (run_identity acts _ _ _ _ Hrun) as (_ & [->| ->] & _); [done|].
    apply Hcheck; [|done]. destruct Hback as (-> & _). done.
  - unfold loadInitialImages, getPaginatedImages. unfold_monad. simpl.
    by rewrite Hdb.
  - unfold handleLoadMore, getPaginatedImages. unfold_monad. simpl.
    destruct (negb (hasMore s) || loadingMore s); [done|]. by rewrite Hdb.
  - unfold handleUpdate, updateImageMetadata. unfold_monad. simpl. by rewrite Hdb.
  - unfold handleSetAsBackground, updateSiteSettings. unfold_monad. simpl.
    by rewrite Hdb.
  - done.
  - unfold handleDelete. rewrite deleteImages_not_ready by (by rewrite Hdb). done.
  - intros confirmed. unfold handleBulkDelete.
    destruct (bool_decide (selectedImages s = [])); [done|].
    destruct confirmed; [|done]. simpl.
    rewrite deleteImages_not_ready by (by rewrite Hdb). done.
  - destruct (toggleImageSelection_keeps imageId s w) as (_ & _ & _ & ? & ?). done.
  - intros Hadmin. unfold handleDragEnd. rewrite Hadmin. by destruct (destination result).
Qed.

Lemma handlers_without_firestore_witness :
  w_db world_uninitialised = false
  ∧ isAdmin (mount world_uninitialised).1 = false
  ∧ handleDelete true "a" (loaded true) world_uninitialised
      = (loaded true,
         log_ui (Alert "Failed to delete image. Please try again.")
           (log_ui (ConsoleError "Failed to delete image:"
                      (PlainError "Firebase services not initialized"))
              world_uninitialised)).
Proof.
  split; [reflexivity|].
  destruct (handlers_without_firestore (loaded true) world_uninitialised
    "a" "" "" "" [] (mkDrop 0 None) eq_refl)
    as ([Hmount _] & _ & _ & _ & _ & _ & Hdelete & _).
  split; [exact Hmount|exact Hdelete].
Defined.

(** * Loading *)

(** X10. [handleLoadMore] only ever appends: the records loaded before are a
    prefix of the records after, and the error state is as before.  While a
    load is in flight or when no more is expected it does nothing at all;
    otherwise it ends with [loadingMore] off and, on an initialised client,
    has issued one request, the query after the current cursor. *)
Theorem handleLoadMore_appends (s : GalleryState) (w : World) :
  images s `prefix_of` images (handleLoadMore s w).1
  ∧ error (handleLoadMore s w).1 = error s
  ∧ (hasMore s = false ∨ loadingMore s = true → handleLoadMore s w = (s, w))
  ∧ (hasMore s = true → loadingMore s = false →
       loadingMore (handleLoadMore s w).1 = false
       ∧ (w_db w = true →
            w_calls (handleLoadMore s w).2
              = w_calls w ++ [OpGetDocs (paginated_constraints PAGE_SIZE (lastVisible s)
                                           (selectedCategory s))])).
Proof.
  unfold handleLoadMore.
  destruct (hasMore s) eqn:Hmore, (loadingMore s) eqn:Hloading; simpl;
    try (repeat split; try done; intros [?|?]; done).
  assert (∀ w1 : World, w_db w = true →
    w_calls (getPaginatedImages PAGE_SIZE (lastVisible s) (selectedCategory s) w).2
      = w_calls w ++ [OpGetDocs (paginated_constraints PAGE_SIZE (lastVisible s)
                                   (selectedCategory s))]) as Hcalls.
  { intros _ Hdb. rewrite getPaginatedImages_guarded by done. cbv zeta.
    by destruct (w_fault w _). }
  destruct (getPaginatedImages _ _ _ w) as [[r|e] w1]; simpl in *.
  - split; [by apply prefix_app_r|]. split; [done|].
    split; [intros [?|?]; done|]. intros _ _. split; [done|]. by apply Hcalls.
  - split; [done|]. split; [done|].
    split; [intros [?|?]; done|]. intros _ _. split; [done|]. by apply Hcalls.
Qed.

(** X11. The initial load always ends with [loading] off.  When the fetch of
    the first page (from no cursor) returns, the records, the cursor and
    [hasMore] are those of the page, whatever was loaded before, and the error
    state is cleared; when it fails, they are as before and the error state is
    set.  So the error state is clear afterwards exactly when the fetch
    returned. *)
Theorem loadInitialImages_outcome (s : GalleryState) (w : World) :
  loading (loadInitialImages s w).1 = false
  ∧ (∀ page, (getPaginatedImages PAGE_SIZE None (selectedCategory s) w).1 = Ok page →
       images (loadInitialImages s w).1 = PaginatedImagesResult.images page
       ∧ lastVisible (loadInitialImages s w).1 = PaginatedImagesResult.lastVisible page
       ∧ hasMore (loadInitialImages s w).1 = PaginatedImagesResult.hasMore page
       ∧ error (loadInitialImages s w).1 = None)
  ∧ (∀ e, (getPaginatedImages PAGE_SIZE None (selectedCategory s) w).1 = Err e →
       images (loadInitialImages s w).1 = images s
       ∧ lastVisible (loadInitialImages s w).1 = lastVisible s
       ∧ hasMore (loadInitialImages s w).1 = hasMore s
       ∧ error (loadInitialImages s w).1
           = Some "Failed to load images. Please try again later.")
  ∧ (error (loadInitialImages s w).1 = None
       ↔ ∃ page, (getPaginatedImages PAGE_SIZE None (selectedCategory s) w).1 = Ok page).
Proof.
  unfold loadInitialImages. simpl.
  destruct (getPaginatedImages _ _ _ w) as [[r|e] w1]; simpl.
  - split; [done|]. split; [by intros ? [= <-]|]. split; [done|].
    split; [by eexists|done].
  - split; [done|]. split; [done|]. split; [done|].
    split; [done|]. by intros [? ?].
Qed.

(** * Categories *)

Lemma array_from_set_go (acc l : list jsstring) :
  NoDup acc →
  NoDup (foldl (λ acc x, if bool_decide (x ∈ acc) then acc else acc ++ [x]) acc l)
  ∧ (∀ x, x ∈ foldl (λ acc x, if bool_decide (x ∈ acc) then acc else acc ++ [x]) acc l
          ↔ x ∈ acc ∨ x ∈ l)
  ∧ acc `prefix_of`
      foldl (λ acc x, if bool_decide (x ∈ acc) then acc else acc ++ [x]) acc l.
Proof.
  revert acc. induction l as [|y l IH]; intros acc Hnd; simpl.
  { split; [done|]. split; [|done]. intros x. rewrite elem_of_nil. tauto. }
  destruct (bool_decide (y ∈ acc)) eqn:Hy.
  - apply bool_decide_eq_true in Hy. destruct (IH acc Hnd) as (? & Hin & ?).
    split; [done|]. split; [|done]. intros x. rewrite Hin, elem_of_cons.
    split; [tauto|]. intros [?|[->|?]]; tauto.
  - apply bool_decide_eq_false in Hy.
    destruct (IH (acc ++ [y])) as (? & Hin & Hpre).
    { apply NoDup_app. split; [done|]. split; [|apply NoDup_singleton].
      intros x Hx ->%list_elem_of_singleton. done. }
    split; [done|]. split.
    + intros x. rewrite Hin, elem_of_app, list_elem_of_singleton, elem_of_cons. tauto.
    + etrans; [|exact Hpre]. by apply prefix_app_r.
Qed.

Lemma array_from_set_go_NoDup (acc l : list jsstring) :
  NoDup (acc ++ l) →
  foldl (λ acc x, if bool_decide (x ∈ acc) then acc else acc ++ [x]) acc l = acc ++ l.
Proof.
  revert acc. induction l as [|y l IH]; intros acc Hnd; simpl; [by rewrite app_nil_r|].
  rewrite bool_decide_eq_false_2.
  - rewrite IH; rewrite <- app_assoc; done.
  - apply NoDup_app in Hnd as (_ & Hdisj & _). intros Hy. apply (Hdisj y Hy). by left.
Qed.

Lemma elem_of_all_labels (imgs : list ImageMetadata) (c : jsstring) :
  c ∈ all_labels imgs ↔ ∃ img, img ∈ imgs ∧ c ∈ ImageMetadata.labels img.
Proof.
  unfold all_labels.
  assert (∀ acc, c ∈ foldl (λ acc img, acc ++ ImageMetadata.labels img) acc imgs
                 ↔ c ∈ acc ∨ ∃ img, img ∈ imgs ∧ c ∈ ImageMetadata.labels img) as H.
  { induction imgs as [|img imgs IH]; intros acc; simpl.
    - split; [by left|]. intros [?|(? & []%elem_of_nil & _)]. done.
    - rewrite IH, elem_of_app. split.
      + intros [[?|?]|(img' & ? & ?)]; [by left|right|right].
        * exists img. split; [by left|done].
        * exists img'. split; [by right|done].
      + intros [?|(img' & [->|?]%elem_of_cons & ?)]; [by left; left|by left; right|].
        right. by exists img'. }
  rewrite H, elem_of_nil. split; [by intros [[]|?]|by right].
Qed.

(** X12. The category list has no label twice and covers the loaded
    records: after an initial load that returned it holds exactly the labels
    of the loaded records.  A load-more on a list without repetition leaves a
    list without repetition that keeps the categories there were, in their
    place, and adds only labels of loaded records; and when the list covered
    the labels of the loaded records, it covers those of the records loaded
    then. *)
Theorem categories_cover_loaded_labels (s : GalleryState) (w : World) :
  (error (loadInitialImages s w).1 = None →
     NoDup (categories (loadInitialImages s w).1)
     ∧ ∀ c, c ∈ categories (loadInitialImages s w).1
            ↔ ∃ img, img ∈ images (loadInitialImages s w).1
                     ∧ c ∈ ImageMetadata.labels img)
  ∧ (NoDup (categories s) →
     NoDup (categories (handleLoadMore s w).1)
     ∧ categories s `prefix_of` categories (handleLoadMore s w).1
     ∧ (∀ c, c ∈ categories (handleLoadMore s w).1 →
          c ∈ categories s
          ∨ ∃ img, img ∈ images (handleLoadMore s w).1 ∧ c ∈ ImageMetadata.labels img)
     ∧ ((∀ img c, img ∈ images s → c ∈ ImageMetadata.labels img → c ∈ categories s) →
        ∀ img c, img ∈ images (handleLoadMore s w).1 →
                 c ∈ ImageMetadata.labels img → c ∈ categories (handleLoadMore s w).1)).
Proof.
  split.
  - unfold loadInitialImages. simpl.
    destruct (getPaginatedImages _ _ _ w) as [[r|e] w1]; simpl; [|done]. intros _.
    destruct (array_from_set_go [] (all_labels (PaginatedImagesResult.images r)))
      as (Hnd & Hin & _); [apply NoDup_nil_2|].
    split; [exact Hnd|]. intros c. unfold array_from_set. rewrite Hin, elem_of_nil.
    rewrite <- elem_of_all_labels. tauto.
  - intros Hnd. unfold handleLoadMore.
    destruct (negb (hasMore s) || loadingMore s);
      [split; [done|]; split; [done|]; split; [by left|done]|].
    destruct (getPaginatedImages _ _ _ w) as [[r|e] w1]; simpl;
      [|split; [done|]; split; [done|]; split; [by left|done]].
    set (new := all_labels (PaginatedImagesResult.images r)).
    assert (array_from_set (categories s ++ new)
      = foldl (λ acc x, if bool_decide (x ∈ acc) then acc else acc ++ [x])
          (categories s) new) as E.
    { unfold array_from_set. rewrite foldl_app.
      by rewrite (array_from_set_go_NoDup [] (categories s) Hnd). }
    rewrite E. destruct (array_from_set_go (categories s) new Hnd) as (Hnd' & Hin & Hpre).
    split; [done|]. split; [done|]. split.
    + intros c [Hc|Hc]%Hin; [by left|right].
      apply elem_of_all_labels in Hc as (img & Himg & Hc).
      exists img. split; [|done]. apply elem_of_app. by right.
    + intros Hcov img c [Himg|Himg]%elem_of_app Hc; apply Hin.
      * left. by eapply Hcov.
      * right. apply elem_of_all_labels. by exists img.
Qed.

(** * Updating a record *)

(** X13. When the update request goes through, the edit form is closed, the
    local list keeps its records in their places, the record with the given id
    carries the new description and the parsed labels and the others are as
    they were; remotely the document of that id differs in description and
    labels only, as the local record says, and no other document changes. *)
Theorem handleUpdate_success
    (imageId description : string) (labels : jsstring) (s : GalleryState) (w : World)
    (d : DocumentData) :
  w_db w = true →
  w_images w !! imageId = Some d →
  w_fault w (OpUpdateImage imageId
               (mkPatch (Some description) (Some (parse_labels labels)) None)) = false →
  editingImage (handleUpdate imageId description labels s w).1 = None
  ∧ ImageMetadata.id <$> images (handleUpdate imageId description labels s w).1
      = ImageMetadata.id <$> images s
  ∧ (∀ k img, images (handleUpdate imageId description labels s w).1 !! k = Some img →
       ∃ old, images s !! k = Some old
         ∧ ImageMetadata.id img = ImageMetadata.id old
         ∧ ImageMetadata.url img = ImageMetadata.url old
         ∧ ImageMetadata.position img = ImageMetadata.position old
         ∧ ImageMetadata.createdAt img = ImageMetadata.createdAt old
         ∧ (ImageMetadata.id old ≠ imageId → img = old)
         ∧ (ImageMetadata.id old = imageId →
              ImageMetadata.description img = description
              ∧ ImageMetadata.labels img = parse_labels labels))
  ∧ w_images (handleUpdate imageId description labels s w).2
      = <[imageId := mkData (d_url d) (d_fileName d) description (parse_labels labels)
                       (d_createdAt d) (d_position d)]> (w_images w)
  ∧ w_ui (handleUpdate imageId description labels s w).2 = w_ui w.
Proof.
  intros Hdb Hdoc Hfault.
  unfold handleUpdate, updateImageMetadata, updateImageDoc. unfold_monad. simpl.
  rewrite Hdb. simpl. rewrite Hfault. simpl. rewrite Hdoc. simpl.
  split; [done|]. split; [|split; [|done]].
  - rewrite <- list_fmap_compose. apply list_fmap_ext. intros _ img _. simpl.
    by destruct (bool_decide _).
  - intros k img. rewrite list_lookup_fmap.
    destruct (images s !! k) as [old|]; [|done]. simpl. intros [= <-]. exists old.
    split; [done|]. destruct (bool_decide (ImageMetadata.id old = imageId)) eqn:E.
    + apply bool_decide_eq_true in E. by repeat split.
    + apply bool_decide_eq_false in E. by repeat split.
Qed.

Lemma handleUpdate_success_witness :
  w_db world3 = true ∧ w_images world3 !! "b" = Some doc_b
  ∧ w_images (handleUpdate "b" "reef" (js "sea, reef") (loaded true) world3).2
      = <["b" := mkData (d_url doc_b) (d_fileName doc_b) "reef" (parse_labels (js "sea, reef"))
                   (d_createdAt doc_b) (d_position doc_b)]> (w_images world3).
Proof.
  split; [reflexivity|]. split; [reflexivity|].
  exact (proj1 (proj2 (proj2 (proj2 (handleUpdate_success "b" "reef" (js "sea, reef")
    (loaded true) world3 doc_b eq_refl eq_refl eq_refl))))).
Defined.

(** X14. When the update cannot go through (no Firestore, a failing request,
    or no document of that id), the component state is untouched, the edit
    form included, no document changes, and the failure is logged and shown
    in an alert. *)
Theorem handleUpdate_failure
    (imageId description : string) (labels : jsstring) (s : GalleryState) (w : World) :
  w_db w = false
  ∨ w_fault w (OpUpdateImage imageId
                 (mkPatch (Some description) (Some (parse_labels labels)) None)) = true
  ∨ w_images w !! imageId = None →
  ∃ e,
    (handleUpdate imageId description labels s w).1 = s
    ∧ w_images (handleUpdate imageId description labels s w).2 = w_images w
    ∧ w_ui (handleUpdate imageId description labels s w).2
        = w_ui w ++ [ConsoleError "Failed to update image:" e;
                     Alert "Failed to update image. Please try again."].
Proof.
  intros Hfail.
  unfold handleUpdate, updateImageMetadata, updateImageDoc. unfold_monad. simpl.
  destruct (w_db w) eqn:Hdb; simpl.
  2:{ eexists. repeat split. by rewrite <- app_assoc. }
  destruct (w_fault w _) eqn:Hfault; simpl.
  { eexists. repeat split. by rewrite <- app_assoc. }
  destruct (w_images w !! imageId) eqn:Hdoc; simpl.
  { by destruct Hfail as [?|[?|?]]. }
  eexists. repeat split. by rewrite <- app_assoc.
Qed.

Lemma handleUpdate_failure_witness :
  w_images world_b_gone !! "b" = None
  ∧ ∃ e,
      (handleUpdate "b" "reef" (js "sea") (loaded true) world_b_gone).1 = loaded true
      ∧ w_images (handleUpdate "b" "reef" (js "sea") (loaded true) world_b_gone).2
          = w_images world_b_gone
      ∧ w_ui (handleUpdate "b" "reef" (js "sea") (loaded true) world_b_gone).2
          = w_ui world_b_gone ++ [ConsoleError "Failed to update image:" e;
                                  Alert "Failed to update image. Please try again."].
Proof.
  split; [reflexivity|].
  apply (handleUpdate_failure "b" "reef" (js "sea") (loaded true) world_b_gone).
  right. right. reflexivity.
Defined.

(** * Site settings and the admin check *)

(** X15. When the three settings requests go through, setting the login
    background leaves the component state and the images alone, shows the
    success alert, and a read of the settings afterwards finds the given
    url and the time of the write, with [aboutImage] and [aboutText] as they
    were, or empty when there was no settings document. *)
Theorem handleSetAsBackground_then_get
    (now imageUrl : string) (s : GalleryState) (w : World) :
  w_db w = true →
  w_fault w OpGetSettings = false → w_fault w OpSetSettings = false →
  w_fault w OpMergeSettings = false →
  (handleSetAsBackground now imageUrl s w).1 = s
  ∧ w_images (handleSetAsBackground now imageUrl s w).2 = w_images w
  ∧ w_ui (handleSetAsBackground now imageUrl s w).2
      = w_ui w ++ [Alert "Login background updated successfully"]
  ∧ ∃ st,
      (getSiteSettings (handleSetAsBackground now imageUrl s w).2).1 = Ok (Some st)
      ∧ loginBackgroundUrl st = Some imageUrl
      ∧ updatedAt st = Some now
      ∧ aboutImage st
          = match w_settings w with Some old => aboutImage old | None => Some "" end
      ∧ aboutText st
          = match w_settings w with Some old => aboutText old | None => Some "" end.
Proof.
  intros Hdb Hget Hset Hmerge.
  unfold handleSetAsBackground, updateSiteSettings, getSiteSettings. unfold_monad. simpl.
  rewrite Hdb. simpl. rewrite Hget. simpl.
  destruct (w_settings w) as [old|] eqn:Hold; simpl.
  - rewrite Hmerge. simpl. rewrite Hdb. simpl. rewrite Hget. simpl.
    rewrite Hold. simpl. repeat split. eexists. by repeat split.
  - rewrite Hset. simpl. rewrite Hmerge. simpl. rewrite Hdb. simpl. rewrite Hget. simpl.
    repeat split. eexists. by repeat split.
Qed.

Lemma handleSetAsBackground_then_get_witness :
  w_db world3 = true
  ∧ (handleSetAsBackground "2024-06-01T00:00:00.000Z" "url-a" (loaded true) world3).1
      = loaded true
  ∧ (getSiteSettings
       (handleSetAsBackground "2024-06-01T00:00:00.000Z" "url-a" (loaded true) world3).2).1
      = Ok (Some (mkSettings (Some "url-a") (Some "") (Some "")
                    (Some "2024-06-01T00:00:00.000Z"))).
Proof.
  split; [reflexivity|].
  split; [|vm_compute; reflexivity].
  exact (proj1 (handleSetAsBackground_then_get "2024-06-01T00:00:00.000Z" "url-a"
    (loaded true) world3 eq_refl eq_refl eq_refl eq_refl)).
Defined.

(** X16. The admin check fails closed and never throws: [checkAdminStatus]
    answers [true] only when Firestore is initialised, the read of the user
    document goes through, and the document's role is [admin]; it writes
    nothing.  On mount, [isAdmin] becomes that answer when a user is signed
    in and is left alone otherwise. *)
Theorem checkAdminStatus_fails_closed (uid : string) (s : GalleryState) (w : World) :
  (∃ b w',
     checkAdminStatus uid w = (Ok b, w')
     ∧ (b = true ↔ w_db w = true ∧ w_fault w (OpGetUser uid) = false
                   ∧ w_users w !! uid = Some "admin")
     ∧ writes w' = writes w ∧ w_images w' = w_images w)
  ∧ (isAdmin (checkAdmin s w).1 = true
       ↔ (w_session w = None ∧ isAdmin s = true)
         ∨ ∃ u, w_session w = Some u ∧ w_db w = true
                ∧ w_fault w (OpGetUser u) = false ∧ w_users w !! u = Some "admin").
Proof.
  assert (∀ u, ∃ b w',
     checkAdminStatus u w = (Ok b, w')
     ∧ (b = true ↔ w_db w = true ∧ w_fault w (OpGetUser u) = false
                   ∧ w_users w !! u = Some "admin")
     ∧ writes w' = writes w ∧ w_images w' = w_images w) as Hcheck.
  { intros u. unfold checkAdminStatus, writes. unfold_monad. simpl.
    destruct (w_db w); simpl.
    2:{ eexists _, _. split; [done|]. split; [|done]. split; [done|]. by intros [? _]. }
    destruct (w_fault w (OpGetUser u)); simpl.
    - eexists _, _. split; [done|]. simpl. rewrite filter_app, app_nil_r.
      split; [|done]. split; [done|]. by intros (_ & ? & _).
    - eexists _, _. split; [done|]. simpl. rewrite filter_app, app_nil_r.
      split; [|done]. rewrite bool_decide_eq_true. tauto. }
  split; [apply Hcheck|]. unfold checkAdmin.
  destruct (w_session w) as [u|].
  - destruct (Hcheck u) as (b & w' & -> & Hb & _). simpl. rewrite Hb. split.
    + intros H. right. by exists u.
    + intros [[? _]|(u' & [= <-] & H)]; done.
  - split; [by left|]. intros [[_ ?]|(? & ? & _)]; done.
Qed.

(** The admin [u1] passes the check, the editor [u2] does not, and with a
    gateway that answers nothing [u1] does not either. *)
Example checkAdminStatus_roles :
  (checkAdminStatus "u1" world_admin).1 = Ok true
  ∧ (checkAdminStatus "u2" world_admin).1 = Ok false
  ∧ (checkAdminStatus "u3" world_admin).1 = Ok false
  ∧ (checkAdminStatus "u1"
       (mkWorld true true ∅ ∅ None (w_users world_admin) (Some "u1") all_fault [] [])).1
    = Ok false
  ∧ isAdmin (checkAdmin initial_state world_admin).1 = true.
Proof. repeat split; vm_compute; reflexivity. Qed.

(** * More on labels *)

Lemma comma_free_app (a b : jsstring) :
  comma_free (a ++ b) = comma_free a && comma_free b.
Proof.
  induction a as [|c a IH]; [done|]. simpl. rewrite IH.
  by rewrite andb_assoc.
Qed.

Lemma comma_free_trim (p : jsstring) : comma_free p = true → comma_free (trim p) = true.
Proof.
  intros Hp. destruct (trim_trimmed p) as (l & r & E & _).
  rewrite E, !comma_free_app in Hp.
  apply andb_true_iff in Hp as [_ Hp]. by apply andb_true_iff in Hp as [Hp _].
Qed.

(** Every parsed label is clean. *)
Lemma parse_labels_clean (labels : jsstring) : Forall clean_label (parse_labels labels).
Proof.
  apply Forall_forall. intros x [Hne Hx]%list_elem_of_filter.
  apply list_elem_of_fmap in Hx as (p & -> & Hp).
  pose proof (comma_free_split labels) as Hfree.
  rewrite Forall_forall in Hfree. specialize (Hfree p Hp).
  destruct (trim_trimmed p) as (l & r & _ & _ & _ & Hs & He).
  split; [done|]. split; [by apply comma_free_trim|done].
Qed.

Lemma is_empty_trim_start (p : jsstring) : is_empty (trim_start p) = all_space p.
Proof.
  induction p as [|c p IH]; [done|]. simpl. by destruct (is_js_space c).
Qed.

Lemma is_empty_trim_end (t : jsstring) :
  starts_with_space t = false → is_empty (trim_end t) = is_empty t.
Proof. destruct t as [|c t]; [done|]. simpl. by intros ->. Qed.

Lemma is_empty_trim (p : jsstring) : is_empty (trim p) = all_space p.
Proof.
  unfold trim. destruct (trim_start_spec p) as (_ & _ & _ & Hs).
  rewrite is_empty_trim_end by done. apply is_empty_trim_start.
Qed.

(** X17. No label that [handleUpdate] persists is empty, holds a comma, or
    begins or ends with white space; there are at most as many labels as
    comma-separated entries, and there is none exactly when every entry is
    blank. *)
Theorem parse_labels_output (labels : jsstring) :
  Forall clean_label (parse_labels labels)
  ∧ (length (parse_labels labels) ≤ length (split comma labels))%nat
  ∧ (parse_labels labels = []
       ↔ Forall (λ p, all_space p = true) (split comma labels)).
Proof.
  split; [apply parse_labels_clean|]. unfold parse_labels. split.
  - etrans; [apply length_filter|]. by rewrite length_fmap.
  - generalize (split comma labels). intros pieces.
    induction pieces as [|p pieces IH]; [done|]. rewrite fmap_cons, Forall_cons.
    destruct (all_space p) eqn:Hp.
    + rewrite filter_cons_False by (by rewrite is_empty_trim, Hp). rewrite IH. tauto.
    + rewrite filter_cons_True by (by rewrite is_empty_trim, Hp).
      split; [done|]. by intros [? _].
Qed.

Lemma split_comma_free (x : jsstring) :
  comma_free x = true → split comma x = [x].
Proof.
  induction x as [|c x IH]; [done|]. simpl.
  intros [Hc Hx]%andb_true_iff. apply negb_true_iff in Hc. rewrite Hc.
  by rewrite IH.
Qed.

Lemma split_comma_free_app (x r : jsstring) :
  comma_free x = true →
  split comma (x ++ comma :: r) = x :: split comma r.
Proof.
  induction x as [|c x IH]; [done|]. simpl.
  intros [Hc Hx]%andb_true_iff. apply negb_true_iff in Hc. rewrite Hc.
  by rewrite IH.
Qed.

Lemma trim_end_clean (l : jsstring) : ends_with_space l = false → trim_end l = l.
Proof.
  induction l as [|c l IH]; [done|]. simpl.
  destruct l as [|c' l]; [by intros ->|].
  intros H. rewrite (IH H). by rewrite andb_false_r.
Qed.

Lemma trim_clean (l : jsstring) : clean_label l → trim l = l.
Proof.
  intros (_ & _ & Hs & He). unfold trim.
  assert (trim_start l = l) as -> by (destruct l; simpl in *; [done|by rewrite Hs]).
  by apply trim_end_clean.
Qed.

Lemma fmap_trim_split_space (r : jsstring) :
  trim <$> split comma (32%N :: r) = trim <$> split comma r.
Proof.
  simpl. pose proof (split_not_nil comma r) as Hne.
  by destruct (split comma r).
Qed.

(** Clean labels joined by [', '] parse back to themselves. *)
Lemma parse_labels_join (ls : list jsstring) :
  Forall clean_label ls → parse_labels (join (js ", ") ls) = ls.
Proof.
  induction 1 as [|x ls Hx Hls IH]; [done|].
  pose proof Hx as (Hne & Hfree & _).
  destruct ls as [|y ls].
  - simpl. unfold parse_labels. rewrite split_comma_free by done. simpl.
    rewrite trim_clean by done. by rewrite filter_cons_True, filter_nil by done.
  - rewrite join_cons_cons.
    change (js ", " ++ join (js ", ") (y :: ls))
      with (comma :: 32%N :: join (js ", ") (y :: ls)).
    unfold parse_labels in *. rewrite split_comma_free_app by done.
    rewrite fmap_cons, fmap_trim_split_space, trim_clean by done.
    rewrite filter_cons_True by done. by rewrite IH.
Qed.

(** X18. The edit form and the save agree: for a record whose labels are
    clean, the text the form shows for them ([labels.join(', ')]) is parsed
    back to exactly those labels; so saving what an earlier save persisted
    changes nothing. *)
Theorem labels_field_round_trip (image : ImageMetadata) (labels : jsstring) :
  (Forall clean_label (ImageMetadata.labels image) →
     parse_labels (labels_field image) = ImageMetadata.labels image)
  ∧ parse_labels (join (js ", ") (parse_labels labels)) = parse_labels labels.
Proof.
  split; [apply parse_labels_join|]. apply parse_labels_join, parse_labels_clean.
Qed.

(** The form text of labels ["sea"; "blue hour"], and a text that does not
    survive: a label holding a comma is split by the next save. *)
Example labels_field_examples :
  parse_labels (join (js ", ") [js "sea"; js "blue hour"]) = [js "sea"; js "blue hour"]
  ∧ parse_labels (join (js ", ") [js "sea,sky"]) = [js "sea"; js "sky"].
Proof. split; reflexivity. Qed.

(** * More on upload, sign-in and the fetch *)

(** X19. An upload is all or nothing for the collection: when it returns,
    exactly the new document was added (under the new id, every other id as
    before), its object is stored, and success was notified; when it throws,
    no document was written or changed and success was not notified.  Once
    the bytes were stored the object stays, also when a later step fails. *)
Theorem uploadImage_all_or_nothing
    (fileName now_ms now newId : string) (w : World) :
  let path := "images/" +:+ now_ms +:+ "-" +:+ fileName in
  match uploadImage fileName now_ms now newId w with
  | (Ok img, w') =>
      ImageMetadata.id img = newId
      ∧ ImageMetadata.url img = download_url path
      ∧ (∀ j, j ≠ newId → w_images w' !! j = w_images w !! j)
      ∧ is_Some (w_images w' !! newId)
      ∧ download_url path ∈ w_blobs w'
      ∧ w_ui w' = w_ui w ++ [UploadProgress 100 "success"]
  | (Err e, w') =>
      w_images w' = w_images w
      ∧ (UploadProgress 100 "success" ∉ drop (length (w_ui w)) (w_ui w'))
      ∧ (w_storage w = true → w_db w = true →
         w_fault w (OpUploadBytes path) = false → download_url path ∈ w_blobs w')
  end.
Proof.
  cbv zeta. unfold uploadImage, setImageDoc. unfold_monad. simpl.
  destruct (w_storage w); simpl; [|by rewrite drop_all; split; [|split; [apply not_elem_of_nil|]]].
  destruct (w_db w); simpl; [|by rewrite drop_all; split; [|split; [apply not_elem_of_nil|]]].
  destruct (w_fault w (OpUploadBytes _)); simpl.
  { split; [done|]. rewrite drop_app_length. split; [|done].
    intros [=]%list_elem_of_singleton. }
  destruct (w_fault w (OpGetDownloadURL _)); simpl.
  { split; [done|]. rewrite drop_all. split; [apply not_elem_of_nil|].
    intros _ _ _. apply elem_of_union_l. by apply elem_of_singleton. }
  destruct (w_fault w (OpSetImage _ _)); simpl.
  { split; [done|]. rewrite drop_all. split; [apply not_elem_of_nil|].
    intros _ _ _. apply elem_of_union_l. by apply elem_of_singleton. }
  split; [done|]. split; [done|].
  split; [by intros j Hj; rewrite lookup_insert_ne|].
  split; [by rewrite lookup_insert_eq|].
  split; [|done]. apply elem_of_union_l. by apply elem_of_singleton.
Qed.

(** An upload whose document write fails: the object is stored, no document
    refers to it. *)
Example uploadImage_orphan_object :
  let fault := λ op, match op with OpSetImage _ _ => true | _ => false end in
  let r := uploadImage "dune.jpg" "1717200000000" "2024-06-01T00:00:00.000Z" "d"
             (world_with fault) in
  w_images r.2 = three_images
  ∧ bool_decide
      ("https://firebasestorage.googleapis.com/images/1717200000000-dune.jpg"
         ∈ w_blobs r.2) = true
  ∧ r.1 = Err (GatewayError (OpSetImage "d"
                 (mkData "https://firebasestorage.googleapis.com/images/1717200000000-dune.jpg"
                    "dune.jpg" "" [] "2024-06-01T00:00:00.000Z" (Some 0)))).
Proof. repeat split; vm_compute; reflexivity. Qed.

(** X20. [formatAuthError] keeps the code and derives the message from the
    code alone, so formatting twice is formatting once and what the gateway
    put in the message never passes.  [loginUser] returns the user of an
    accepted sign-in, [logoutUser] returns after an accepted sign-out; each
    throws the formatted error of a rejected request, and the plain
    initialisation error, unformatted, without [auth]. *)
Theorem loginUser_outcome
    (auth : bool) (answer : AuthError + string) (signedOut : option AuthError)
    (e1 e2 : AuthError) :
  AuthError.code (formatAuthError e1) = AuthError.code e1
  ∧ formatAuthError (formatAuthError e1) = formatAuthError e1
  ∧ (AuthError.code e1 = AuthError.code e2 → formatAuthError e1 = formatAuthError e2)
  ∧ match loginUser auth answer with
    | inr user => auth = true ∧ answer = inr user
    | inl (AuthNotInitialized msg) =>
        auth = false ∧ msg = "Authentication is not initialized"
    | inl (AuthRejected e) =>
        auth = true ∧ ∃ raw, answer = inl raw ∧ e = formatAuthError raw
    end
  ∧ match logoutUser auth signedOut with
    | inr _ => auth = true ∧ signedOut = None
    | inl (AuthNotInitialized msg) =>
        auth = false ∧ msg = "Authentication is not initialized"
    | inl (AuthRejected e) =>
        auth = true ∧ ∃ raw, signedOut = Some raw ∧ e = formatAuthError raw
    end.
Proof.
  split; [done|]. split; [done|]. split; [|split].
  - unfold formatAuthError. by intros ->.
  - unfold loginUser. destruct auth; simpl; [|done].
    destruct answer as [raw|user]; [|done]. split; [done|]. by exists raw.
  - unfold logoutUser. destruct auth; simpl; [|done].
    destruct signedOut as [raw|]; [|done]. split; [done|]. by exists raw.
Qed.

(** A rejected sign-in with a wrong password, and one with a code outside the
    table. *)
Example loginUser_messages :
  loginUser true (inl (AuthError.mk "auth/wrong-password" "Firebase: Error (auth/wrong-password)."))
    = inl (AuthRejected (AuthError.mk "auth/wrong-password" "Incorrect password"))
  ∧ loginUser true (inl (AuthError.mk "auth/network-request-failed" "timeout"))
    = inl (AuthRejected (AuthError.mk "auth/network-request-failed"
                           "An error occurred. Please try again"))
  ∧ logoutUser false None = inl (AuthNotInitialized "Authentication is not initialized").
Proof. repeat split; vm_compute; reflexivity. Qed.

(** X21. On an initialised client [getPaginatedImages] changes nothing
    remotely.  For a positive page size it issues exactly one request, the
    query; it returns when the query is answered, and when the query fails it
    logs and throws the failure wrapped once.  For a page size that is not
    positive the SDK refuses the limit before anything is logged or asked:
    no request is issued, and the refusal is logged and thrown, wrapped once.
    An empty-string category asks the same query as no category. *)
Theorem getPaginatedImages_outcome
    (pageSize : Z) (cursor : option QueryDocumentSnapshot) (category : option jsstring)
    (w : World) :
  w_db w = true →
  let q := paginated_constraints pageSize cursor category in
  let r := getPaginatedImages pageSize cursor category w in
  w_images r.2 = w_images w ∧ w_blobs r.2 = w_blobs w ∧ w_settings r.2 = w_settings w
  ∧ (0 < pageSize →
       w_calls r.2 = w_calls w ++ [OpGetDocs q]
       ∧ if w_fault w (OpGetDocs q)
         then r.1 = Err (Wrapped "Failed to fetch images: " (GatewayError (OpGetDocs q)))
              ∧ w_ui r.2 = w_ui w ++ [ConsoleLog "Fetching images with constraints:";
                                      ConsoleError "Error fetching paginated images:"
                                        (GatewayError (OpGetDocs q))]
         else (∃ page, r.1 = Ok page)
              ∧ w_ui r.2 = w_ui w ++ [ConsoleLog "Fetching images with constraints:"])
  ∧ (pageSize ≤ 0 →
       w_calls r.2 = w_calls w
       ∧ r.1 = Err (Wrapped "Failed to fetch images: " (InvalidArgument "limit" pageSize))
       ∧ w_ui r.2 = w_ui w ++ [ConsoleError "Error fetching paginated images:"
                                 (InvalidArgument "limit" pageSize)])
  ∧ getPaginatedImages pageSize cursor (Some []) w
      = getPaginatedImages pageSize cursor None w.
Proof.
  intros Hdb. cbv zeta.
  destruct (Z.leb_spec pageSize 0) as [Hle|Hpos].
  - unfold getPaginatedImages, getDocs, validatePositiveNumber. unfold_monad. simpl.
    rewrite Hdb. simpl. rewrite (proj2 (Z.leb_le pageSize 0) Hle). simpl.
    split; [done|]. split; [done|]. split; [done|]. split; [intros; lia|].
    split; [|done]. intros _. by repeat split.
  - rewrite !(getPaginatedImages_guarded pageSize cursor _ w Hdb Hpos). cbv zeta.
    split; [by destruct (w_fault w _)|]. split; [by destruct (w_fault w _)|].
    split; [by destruct (w_fault w _)|]. split; [|split; [intros; lia|done]].
    intros _.
    destruct (w_fault w (OpGetDocs (paginated_constraints pageSize cursor category)));
      simpl; split; try done.
    + split; [done|]. by rewrite <- app_assoc.
    + split; [by eexists|done].
Qed.

Lemma getPaginatedImages_outcome_witness :
  w_db world13 = true
  ∧ (0 < 12 →
       w_calls (getPaginatedImages 12 None None world13).2
         = w_calls world13 ++ [OpGetDocs (paginated_constraints 12 None None)]
       ∧ if w_fault world13 (OpGetDocs (paginated_constraints 12 None None))
         then (getPaginatedImages 12 None None world13).1
                = Err (Wrapped "Failed to fetch images: "
                         (GatewayError (OpGetDocs (paginated_constraints 12 None None))))
              ∧ w_ui (getPaginatedImages 12 None None world13).2
                  = w_ui world13
                      ++ [ConsoleLog "Fetching images with constraints:";
                          ConsoleError "Error fetching paginated images:"
                            (GatewayError (OpGetDocs (paginated_constraints 12 None None)))]
         else (∃ page, (getPaginatedImages 12 None None world13).1 = Ok page)
              ∧ w_ui (getPaginatedImages 12 None None world13).2
                  = w_ui world13 ++ [ConsoleLog "Fetching images with constraints:"]).
Proof.
  split; [reflexivity|].
  exact (proj1 (proj2 (proj2 (proj2
    (getPaginatedImages_outcome 12 None None world13 eq_refl))))).
Defined.

(** A page size of zero: refused by the SDK, nothing asked. *)
Example getPaginatedImages_zero :
  (getPaginatedImages 0 None None world3).1
    = Err (Wrapped "Failed to fetch images: " (InvalidArgument "limit" 0))
  ∧ w_calls (getPaginatedImages 0 None None world3).2 = [].
Proof. split; vm_compute; reflexivity. Qed.

(** * The fetched page, against the reference gateway *)

Lemma drop_while_sublist {A} (p : A → bool) (l : list A) :
  drop_while p l `sublist_of` l.
Proof.
  induction l as [|x l IH]; simpl; [done|].
  destruct (p x); [by apply sublist_cons|done].
Qed.

Lemma apply_cursors_sublist q (cs : list QueryConstraint) l :
  foldl (λ l c, apply_cursor q c l) l cs `sublist_of` l.
Proof.
  revert l. induction cs as [|c cs IH]; intros l; simpl; [done|].
  etrans; [apply IH|].
  destruct c; simpl; auto using drop_while_sublist, sublist_take.
Qed.

Lemma NoDup_snapshots (m : gmap string DocumentData) : NoDup (snap_id <$> snapshots m).
Proof.
  unfold snapshots. rewrite <- list_fmap_compose.
  apply (NoDup_fst_map_to_list m).
Qed.

Lemma elem_of_snapshots (m : gmap string DocumentData) (d : QueryDocumentSnapshot) :
  d ∈ snapshots m ↔ m !! snap_id d = Some (snap_data d).
Proof.
  unfold snapshots. rewrite list_elem_of_fmap. split.
  - intros ([k x] & -> & Hkx). by apply elem_of_map_to_list in Hkx.
  - intros H. exists (snap_id d, snap_data d). split; [by destruct d|].
    by apply elem_of_map_to_list.
Qed.

(** What the reference gateway answers comes from the collection, matches
    the query, and has no document twice. *)
Lemma runQuery_sound q (m : gmap string DocumentData) :
  NoDup (snap_id <$> runQuery q m)
  ∧ ∀ d, d ∈ runQuery q m →
         m !! snap_id d = Some (snap_data d) ∧ forallb (matches d) q = true.
Proof.
  unfold runQuery.
  set (matching := filter (λ d, forallb (matches d) q = true) (snapshots m)).
  pose proof (apply_cursors_sublist q q (merge_sort (query_le q) matching)) as Hsub.
  pose proof (merge_sort_Permutation (query_le q) matching) as Hperm.
  split.
  - eapply sublist_NoDup; [|by apply fmap_sublist]. rewrite Hperm.
    eapply sublist_NoDup; [apply NoDup_snapshots|apply fmap_sublist, sublist_filter].
  - intros d Hd. eapply elem_of_sublist in Hd; [|done].
    rewrite Hperm in Hd. apply list_elem_of_filter in Hd as [Hmatch Hd].
    by apply elem_of_snapshots in Hd.
Qed.

Lemma length_runQuery_limit q (n : Z) (m : gmap string DocumentData) :
  (length (runQuery (q ++ [limit n]) m) ≤ Z.to_nat n)%nat.
Proof.
  unfold runQuery. rewrite foldl_app. simpl. rewrite length_take. lia.
Qed.

(** X22. Against the reference behaviour of the gateway, a page that
    [getPaginatedImages] returns holds no record twice, at most [pageSize]
    records, only records of the collection with the data stored there, and,
    for a category other than the empty string, only records labelled with
    it. *)
Theorem getPaginatedImages_page_sound
    (pageSize : Z) (cursor : option QueryDocumentSnapshot) (category : option jsstring)
    (w w' : World) (r : PaginatedImagesResult) :
  getPaginatedImages pageSize cursor category w = (Ok r, w') →
  NoDup (ImageMetadata.id <$> PaginatedImagesResult.images r)
  ∧ (0 ≤ pageSize → Z.of_nat (length (PaginatedImagesResult.images r)) ≤ pageSize)
  ∧ (∀ img, img ∈ PaginatedImagesResult.images r →
       ∃ d, w_images w !! ImageMetadata.id img = Some d
            ∧ img = image_of_snapshot (mkSnap (ImageMetadata.id img) d))
  ∧ (∀ c img, category = Some c → c ≠ [] →
       img ∈ PaginatedImagesResult.images r → c ∈ ImageMetadata.labels img).
Proof.
  intros H. apply getPaginatedImages_returns in H as [_ ->]. simpl.
  set (q := paginated_constraints pageSize cursor category).
  destruct (runQuery_sound q (w_images w)) as [Hnd Hin].
  split; [|split; [|split]].
  - by rewrite <- list_fmap_compose.
  - intros Hpos. rewrite length_fmap.
    assert (length (runQuery q (w_images w)) ≤ Z.to_nat pageSize)%nat; [|lia].
    subst q. unfold paginated_constraints. rewrite !app_assoc.
    apply length_runQuery_limit.
  - intros img (d & -> & Hd)%list_elem_of_fmap.
    destruct (Hin d Hd) as [Hdoc _]. exists (snap_data d). split; [done|]. by destruct d.
  - intros c img -> Hc (d & -> & Hd)%list_elem_of_fmap.
    destruct (Hin d Hd) as [_ Hmatch]. subst q. unfold paginated_constraints in Hmatch.
    rewrite bool_decide_eq_false_2 in Hmatch by done. simpl in Hmatch.
    apply andb_true_iff in Hmatch as [Hmatch _]. by apply bool_decide_eq_true in Hmatch.
Qed.

Lemma getPaginatedImages_page_sound_witness :
  getPaginatedImages 2 None None world3
    = (Ok first_page_of_two, (getPaginatedImages 2 None None world3).2)
  ∧ NoDup (ImageMetadata.id <$> PaginatedImagesResult.images first_page_of_two)
  ∧ (0 ≤ 2 → Z.of_nat (length (PaginatedImagesResult.images first_page_of_two)) ≤ 2).
Proof.
  assert (getPaginatedImages 2 None None world3
    = (Ok first_page_of_two, (getPaginatedImages 2 None None world3).2)) as E.
  { rewrite (surjective_pairing (getPaginatedImages 2 None None world3)) at 1.
    f_equal; vm_compute; reflexivity. }
  split; [exact E|].
  destruct (getPaginatedImages_page_sound 2 None None world3 _ _ E) as (Hnd & Hlen & _).
  split; [exact Hnd|exact Hlen].
Defined.

(** The category [sea] in the three-record collection: only [b] carries it. *)
Example getPaginatedImages_category :
  (λ page, ImageMetadata.id <$> PaginatedImagesResult.images page)
    <$> (match (getPaginatedImages 12 None (Some (js "sea")) world3).1 with
         | Ok page => Some page
         | Err _ => None
         end) = Some ["b"].
Proof. vm_compute. reflexivity. Qed.

(** * The single delete *)

(** X23. [handleDelete] does nothing at all when the user declines.  When the
    deletion goes through, the local list loses the records of that id and
    keeps the others in order, the document of that id is gone, the documents
    of the records still listed are as before, and nothing is reported.  When
    it fails, the component state is untouched and the failure is logged and
    shown in an alert. *)
Theorem handleDelete_outcome (imageId : string) (s : GalleryState) (w : World) :
  handleDelete false imageId s w = (s, w)
  ∧ ((deleteImages [imageId] w).1 = Ok tt →
       images (handleDelete true imageId s w).1
         = filter (λ img, ImageMetadata.id img ≠ imageId) (images s)
       ∧ w_images (handleDelete true imageId s w).2 !! imageId = None
       ∧ (∀ img, img ∈ images (handleDelete true imageId s w).1 →
            w_images (handleDelete true imageId s w).2 !! ImageMetadata.id img
              = w_images w !! ImageMetadata.id img)
       ∧ w_ui (handleDelete true imageId s w).2 = w_ui w)
  ∧ (∀ e, (deleteImages [imageId] w).1 = Err e →
       (handleDelete true imageId s w).1 = s
       ∧ w_ui (handleDelete true imageId s w).2
           = w_ui w ++ [ConsoleError "Failed to delete image:" e;
                        Alert "Failed to delete image. Please try again."]).
Proof.
  split; [done|].
  destruct (deleteImages_frame_parts [imageId] w) as (Hout & _ & _ & _ & Hui & Hgone).
  unfold handleDelete. simpl.
  destruct (deleteImages [imageId] w) as [[[]|e] w1]; simpl in *.
  - split; [|done]. intros _. split; [done|]. split; [apply Hgone; [done|by left]|].
    split; [|done]. intros img [Hne _]%list_elem_of_filter.
    apply Hout. by intros E%list_elem_of_singleton.
  - split; [done|]. intros ? [= <-]. split; [done|]. by rewrite Hui, <- app_assoc.
Qed.

(** * The earlier loader *)

(** X25. Against the reference behaviour of the gateway (a query ordered by a
    field answers only documents that have it), the earlier [loadImages]
    lists no record without a stored [position]: after a load that returned,
    every listed record is a document of the collection that has a
    [position], and shows that position, so the fallback to the index is
    never used.  This is the hiding that the paginated loader avoids by not
    ordering on [position]. *)
Theorem loadImages_hides_unpositioned (s : GalleryState) (w : World) :
  error (loadImages s w).1 = None →
  ∀ img, img ∈ images (loadImages s w).1 →
    ∃ d p, w_images w !! ImageMetadata.id img = Some d
           ∧ d_position d = Some p
           ∧ ImageMetadata.position img = Some p.
Proof.
  unfold loadImages, getDocs. unfold_monad. simpl.
  destruct (w_db w); simpl; [|done].
  destruct (w_fault w _); simpl; [done|]. intros _ img Himg.
  apply list_elem_of_lookup in Himg as [k Hk]. rewrite list_lookup_imap in Hk.
  set (q := loadImages_constraints (selectedCategory s)) in *.
  destruct (runQuery q (w_images w) !! k) as [d|] eqn:Hd; [|done].
  simpl in Hk. injection Hk as <-.
  destruct (runQuery_sound q (w_images w)) as [_ Hin].
  destruct (Hin d) as [Hdoc Hmatch]; [by eapply list_elem_of_lookup_2|].
  assert (is_Some (d_position (snap_data d))) as [p Hp].
  { subst q. unfold loadImages_constraints in Hmatch.
    destruct (selectedCategory s) as [c|]; [destruct (bool_decide (c = []))|];
      simpl in Hmatch; repeat (apply andb_true_iff in Hmatch as [? Hmatch]);
      match goal with
      | H : bool_decide (is_Some _) = true |- _ => exact (bool_decide_eq_true_1 _ H)
      end. }
  exists (snap_data d), p. unfold loadImages_image. simpl. by rewrite Hp.
Qed.

Lemma loadImages_hides_unpositioned_witness :
  error (loadImages initial_state world3).1 = None
  ∧ ImageMetadata.id <$> images (loadImages initial_state world3).1 = ["a"; "c"]
  ∧ ∀ img, img ∈ images (loadImages initial_state world3).1 →
      ∃ d p, w_images world3 !! ImageMetadata.id img = Some d
             ∧ d_position d = Some p
             ∧ ImageMetadata.position img = Some p.
Proof.
  split; [vm_compute; reflexivity|]. split; [vm_compute; reflexivity|].
  apply (loadImages_hides_unpositioned initial_state world3). vm_compute. reflexivity.
Defined.
